(** * core-native: module runtime, action pipeline and logger

    A shallow embedding of [src/module.ts] ([register], [getKeys],
    [executeAction]), [src/platform/Module.tsx] ([Module.setState]) and of
    the two log collectors ([EventLogger] and [LoggerImpl]), with the
    properties of the specification stated over it. *)

From Stdlib Require DecimalString HexadecimalString HexadecimalZ.
From stdpp Require Import gmap strings list fin_maps.
From ITree Require Import ITree Eq.Shallow Eq.Eqit Props.Leaf.

Set Default Proof Using "Type".

(** ** JavaScript values

    Objects are references: two object values are [===] exactly when their
    references agree. The numbers that occur (counters, status codes, clock
    readings) are integers, with [NaN] apart. [VBuiltin] is an object or
    function that the JavaScript realm provides, by its name: here the
    members of [Object.prototype]. *)

Inductive JsVal : Type :=
| VUndefined
| VNull
| VBool (b : bool)
| VNum (n : Z)
| VNaN
| VStr (s : string)
| VObj (ref : nat)
| VBuiltin (name : string).

#[global] Instance JsVal_eq_dec : EqDecision JsVal.
Proof. solve_decision. Defined.

(** [!v] is [negb (truthy v)]. *)
Definition truthy (v : JsVal) : bool :=
  match v with
  | VUndefined | VNull | VNaN => false
  | VBool b => b
  | VNum n => negb (n =? 0)%Z
  | VStr s => negb (String.eqb s "")
  | VObj _ | VBuiltin _ => true
  end.

(** [a === b]: the same value or the same reference, except that [NaN] is
    not [===] to itself. *)
Definition strict_equal (a b : JsVal) : bool :=
  match a, b with
  | VUndefined, VUndefined | VNull, VNull => true
  | VBool x, VBool y => Bool.eqb x y
  | VNum x, VNum y => (x =? y)%Z
  | VStr x, VStr y => String.eqb x y
  | VObj x, VObj y => Nat.eqb x y
  | VBuiltin x, VBuiltin y => String.eqb x y
  | _, _ => false
  end.

(** The own properties of [Object.prototype], which every plain object
    inherits. *)
Definition Object_prototype_names : list string :=
  ["constructor"; "__defineGetter__"; "__defineSetter__"; "hasOwnProperty";
   "__lookupGetter__"; "__lookupSetter__"; "isPrototypeOf"; "propertyIsEnumerable";
   "toString"; "valueOf"; "__proto__"; "toLocaleString"].

(** [object[key]] on a plain object with the own properties [own]: the own
    property if there is one, else the member of [Object.prototype] of that
    name, else [undefined]. *)
Definition plain_object_get (own : gmap string JsVal) (key : string) : JsVal :=
  match own !! key with
  | Some v => v
  | None =>
      if bool_decide (key ∈ Object_prototype_names)
      then VBuiltin ("Object.prototype." +:+ key)
      else VUndefined
  end.

(** What a JavaScript call gives back: a value, or a raised value. *)
Variant Outcome (A : Type) : Type :=
| Ok (a : A)
| Throws (e : JsVal).
Arguments Ok {A} a.
Arguments Throws {A} e.

(** ** Actions

    [setStateAction] and [errorAction] are imported from [./reducer]; a call
    of either is kept as the constructor applied to the arguments of the
    call. [ModuleAction] is the object literal [{type, payload}] that a
    synthesized action creator returns. *)

Inductive Action : Type :=
| ModuleAction (type : string) (payload : list JsVal)
| setStateAction (module : string) (state : JsVal) (type : string)
| errorAction (error : JsVal) (actionName : string).

#[global] Instance Action_eq_dec : EqDecision Action.
Proof. solve_decision. Defined.

(** ** Sagas

    A [SagaIterator] is a generator: it yields effects to the scheduler and
    is resumed with [next(v)], [throw(e)] or [return(v)], until it completes
    or raises. The scheduler (redux-saga) is outside the program, so a saga
    is an interaction tree over the single event [Yield]. *)

Inductive Effect : Type :=
| Put (a : Action)
| OtherEffect (descr : JsVal).

Variant Resume : Type :=
| Next (v : JsVal)
| ThrowIn (e : JsVal)
| ReturnIn (v : JsVal).

Variant sagaE : Type -> Type :=
| Yield (eff : Effect) : sagaE Resume.

(** How a generator ends; the value it returns is used by no caller. *)
Variant Completion : Type :=
| Completed
| Raised (error : JsVal).

Definition Saga : Type := itree sagaE Completion.

Definition ActionHandler : Type := list JsVal -> Saga.

(** What [executeAction] does once the [put] of its [catch] block is resumed:
    the generator has nothing left to run, so [next] and [return] end it and
    [throw] leaves it through the raised value. *)
Definition after_put (r : Resume) : Completion :=
  match r with
  | Next _ | ReturnIn _ => Completed
  | ThrowIn e => Raised e
  end.

(** [try { yield* handler(...payload) } catch (error) { yield put(errorAction(error, actionName)) }] *)
Definition executeAction (actionName : string) (handler : ActionHandler)
    (payload : list JsVal) : Saga :=
  ITree.bind (handler payload) (fun c =>
    match c with
    | Completed => Ret Completed
    | Raised error =>
        Vis (Yield (Put (errorAction error actionName)))
            (fun r => Ret (after_put r))
    end).

(** *** Runs of a saga

    One observation of a saga, with the event's answer type resolved. *)
Variant SagaStep : Type :=
| StepRet (c : Completion)
| StepTau (t : Saga)
| StepYield (eff : Effect) (k : Resume -> Saga).

Definition view (t : Saga) : SagaStep :=
  match observe t with
  | RetF c => StepRet c
  | TauF u => StepTau u
  | VisF e k =>
      match e in sagaE X return (X -> Saga) -> SagaStep with
      | Yield eff => fun k => StepYield eff k
      end k
  end.

(** [runs t tr c]: driven by a scheduler that answers the yielded effects as
    recorded in [tr], the saga [t] ends with [c]. *)
Inductive runs : Saga -> list (Effect * Resume) -> Completion -> Prop :=
| runs_ret t c :
    view t = StepRet c -> runs t [] c
| runs_tau t u tr c :
    view t = StepTau u -> runs u tr c -> runs t tr c
| runs_yield t eff k r tr c :
    view t = StepYield eff k -> runs (k r) tr c -> runs t ((eff, r) :: tr) c.

(** ** Modules

    A function object: its identity, what it runs when called with a given
    [this] (the identity of the receiver) and arguments, and whether it
    takes the assignment [method.actionName = ...]: a function that was
    frozen, or made non-extensible while it had no such property
    ([Object.freeze], [Object.preventExtensions]), does not, and the
    assignment, in strict mode, raises a [TypeError]. *)
Record Method : Type := {
  fn_ref : nat;
  fn_body : nat -> ActionHandler;
  fn_extensible : bool;
}.

Variant PropValue : Type :=
| PVal (v : JsVal)
| PFun (f : Method).

(** [v instanceof Function] *)
Definition instanceof_Function (v : PropValue) : bool :=
  match v with
  | PFun _ => true
  | PVal _ => false
  end.

(** An own property of a prototype object: a method or another data
    property, or an accessor, whose getter runs at each read, sees the State
    Tree, and may raise. *)
Variant Member : Type :=
| Value (v : PropValue)
| Accessor (getter : gmap string JsVal -> Outcome PropValue).

(** An instance of (a subclass of) [Module]. [name] and [initialState] are
    the own properties that the constructor's parameter properties create,
    [fields] the other own properties of the instance, [proto] the own
    properties of [Object.getPrototypeOf(module)] in the order
    [Object.getOwnPropertyNames] lists them, and [inherited] the properties
    further up the prototype chain. *)
Record AppModule : Type := {
  self : nat;
  name : string;
  initialState : JsVal;
  fields : gmap string PropValue;
  proto : list (string * Member);
  inherited : list (string * Member);
}.

Fixpoint lookup_member (p : string) (members : list (string * Member)) : option Member :=
  match members with
  | [] => None
  | (q, m) :: rest => if String.eqb q p then Some m else lookup_member p rest
  end.

(** [module[propertyName]] *)
Definition get (module : AppModule) (propertyName : string)
    (tree : gmap string JsVal) : Outcome PropValue :=
  if String.eqb propertyName "name" then Ok (PVal (VStr (name module)))
  else if String.eqb propertyName "initialState" then Ok (PVal (initialState module))
  else
    match fields module !! propertyName with
    | Some v => Ok v
    | None =>
        match lookup_member propertyName (proto module ++ inherited module) with
        | Some (Value v) => Ok v
        | Some (Accessor getter) => getter tree
        | None => Ok (PVal VUndefined)
        end
    end.

(** The [for ... of] loop of [getKeys], with the array [keys] built so far. *)
Fixpoint getKeys_loop (module : AppModule) (tree : gmap string JsVal)
    (propertyNames : list string) (keys : list string) : Outcome (list string) :=
  match propertyNames with
  | [] => Ok keys
  | propertyName :: rest =>
      match get module propertyName tree with
      | Throws e => Throws e
      | Ok v =>
          if instanceof_Function v && negb (String.eqb propertyName "constructor")
          then getKeys_loop module tree rest (keys ++ [propertyName])
          else getKeys_loop module tree rest keys
      end
  end.

Definition getKeys (module : AppModule) (tree : gmap string JsVal) : Outcome (list string) :=
  getKeys_loop module tree (map fst (proto module)) [].

(** ** What the program imports

    The parts of the process that the sources use but do not define: the
    store's reducer ([./reducer]), the build mode ([process.env.NODE_ENV]),
    immer's [produce] with the drafts it hands to a recipe, [Object.assign]
    on a draft, [JSON.stringify], and the base logging context
    ([./platform/loggerContext]). *)

(** A value of the logging context, [string | (() => string)]; a thunk is a
    function of no argument that yields a string, as its type has it. *)
Variant ContextValue : Type :=
| CtxString (s : string)
| CtxThunk (f : unit -> string).

Class Platform : Type := {
  (** the [app] subtree of the store's state after an action is reduced *)
  reducer : gmap string JsVal -> Action -> gmap string JsVal;
  (** [process.env.NODE_ENV === "development"] *)
  development : bool;
  (** the drafts that [produce] hands to a recipe; a recipe is what it
      does to its draft, the value it returns being dropped by the [void]
      wrapper of [setState] *)
  Draft : Type;
  (** [produce(base, recipe, listener)]: the produced value, and the paths
      of the patches handed to the listener when it is given and called;
      raises what the recipe raises *)
  produce : JsVal -> (Draft -> Draft) -> bool ->
            Outcome (JsVal * option (list (list string)));
  Object_assign : Draft -> JsVal -> Draft;
  JSON_stringify : JsVal -> string;
  JSON_stringify_tree : gmap string JsVal -> string;
  loggerContext : gmap string ContextValue;
}.

(** ** Exceptions

    The classes of [./Exception], with the fields the loggers read; a status
    code is an integer. [OtherException] is any other [Exception]. *)
Inductive Exception : Type :=
| NetworkConnectionException (message : string)
| APIException (message : string) (statusCode : Z) (requestURL : string)
               (errorId errorCode : option string)
| ReactLifecycleException (message : string) (componentStack : string)
| RuntimeException (message : string) (errorObject : JsVal)
| OtherException (message : string).

Definition message_of (e : Exception) : string :=
  match e with
  | NetworkConnectionException m | APIException m _ _ _ _
  | ReactLifecycleException m _ | RuntimeException m _ | OtherException m => m
  end.

(** A number in a template literal, and [Number.prototype.toString()]. *)
Definition number_toString (n : Z) : string :=
  DecimalString.NilZero.string_of_int (Z.to_int n).

(** [n.toString(16)] *)
Definition number_toString_16 (n : Z) : string :=
  HexadecimalString.NilZero.string_of_int (Z.to_hex_int n).

(** [if (s)] on a [string | null | undefined]. *)
Definition truthy_string (s : option string) : bool :=
  match s with
  | Some s => negb (String.eqb s "")
  | None => false
  end.

Variant ResultClass : Type := OK | WARN | ERROR.

#[global] Instance ResultClass_eq_dec : EqDecision ResultClass.
Proof. solve_decision. Defined.

(** [typeof value === "string" ? value : value()] *)
Definition resolve (value : ContextValue) : string :=
  match value with
  | CtxString s => s
  | CtxThunk f => f tt
  end.

(** The closure a logger call returns. It captures the event object it has
    just queued, here the reference of that object. *)
Variant Callback : Type :=
| StampElapsedTime (event : nat).

(** ** EventLogger *)
Module EventLogger.

Record EventLog : Type := {
  id : string;
  date : Z;
  result : ResultClass;
  context : gmap string string;
  info : gmap string string;
  elapsedTime : Z;
  action : option string;
  errorCode : option string;
}.

(** The logger's fields, and the event objects created so far: a reference
    to an event is its index in [objects], and [logQueue] holds references,
    as the array holds the objects the callbacks write to. *)
Record State : Type := {
  objects : list EventLog;
  environmentContext : gmap string ContextValue;
  uuidCounter : Z;
  logQueue : list nat;
}.

(** [new EventLogger()], at clock reading [now]. *)
Definition new (now : Z) : State :=
  {| objects := []; environmentContext := ∅; uuidCounter := now; logQueue := [] |}.

Definition setContext (context : gmap string ContextValue) (s : State) : State :=
  {| objects := objects s; environmentContext := context;
     uuidCounter := uuidCounter s; logQueue := logQueue s |}.

Definition getUUID (s : State) : string * State :=
  (number_toString_16 (uuidCounter s),
   {| objects := objects s; environmentContext := environmentContext s;
      uuidCounter := (uuidCounter s + 1)%Z; logQueue := logQueue s |}).

(** [now] is the reading of the clock by [new Date()]. *)
Definition appendLog (actionOrErrorCode : string) (result : ResultClass)
    (info : gmap string string) (now : Z) (s : State) : Callback * State :=
  let completeContext := resolve <$> environmentContext s in
  let '(uuid, s1) := getUUID s in
  let event :=
    {| id := uuid; date := now; result := result; info := info;
       context := completeContext; elapsedTime := 0;
       action := match result with OK => Some actionOrErrorCode | _ => None end;
       errorCode := match result with OK => None | _ => Some actionOrErrorCode end |} in
  let ref := length (objects s1) in
  (StampElapsedTime ref,
   {| objects := objects s1 ++ [event]; environmentContext := environmentContext s1;
      uuidCounter := uuidCounter s1; logQueue := logQueue s1 ++ [ref] |}).

(** [event.elapsedTime = t] *)
Definition set_elapsedTime (t : Z) (event : EventLog) : EventLog :=
  {| id := id event; date := date event; result := result event;
     context := context event; info := info event; elapsedTime := t;
     action := action event; errorCode := errorCode event |}.

(** [event.elapsedTime = new Date().getTime() - event.date.getTime()] *)
Definition stamp (now : Z) (event : EventLog) : EventLog :=
  set_elapsedTime (now - date event) event.

(** Calling the closure at clock reading [now]. *)
Definition invoke (cb : Callback) (now : Z) (s : State) : State :=
  match cb with
  | StampElapsedTime ref =>
      {| objects := alter (stamp now) ref (objects s);
         environmentContext := environmentContext s;
         uuidCounter := uuidCounter s; logQueue := logQueue s |}
  end.

(** From [s] to [s'], one event object [event] was created and put at the
    end of the queue, and [cb] is the closure over it. *)
Definition appended (s s' : State) (cb : Callback) (event : EventLog) : Prop :=
  cb = StampElapsedTime (length (objects s))
  /\ objects s' = objects s ++ [event]
  /\ logQueue s' = logQueue s ++ [length (objects s)]
  /\ environmentContext s' = environmentContext s.

Section WithPlatform.
Context `{Platform}.

(** [log(_, info = {})]; [tree] is [app.store.getState().app]. *)
Definition log (arg : string + Exception) (info : option (gmap string string))
    (tree : gmap string JsVal) (now : Z) (s : State) : Callback * State :=
  match arg with
  | inl action => appendLog action OK (default ∅ info) now s
  | inr (NetworkConnectionException message) =>
      appendLog "NETWORK_FAILURE" WARN {[ "errorMessage" := message ]} now s
  | inr exception =>
      let exceptionInfo : gmap string string :=
        {[ "errorMessage" := message_of exception ]} in
      let '(errorCode, exceptionInfo) :=
        match exception with
        | APIException _ statusCode requestURL _ _ =>
            ("API_ERROR:" +:+ number_toString statusCode,
             <["statusCode" := number_toString statusCode]>
               (<["requestURL" := requestURL]> exceptionInfo))
        | ReactLifecycleException _ componentStack =>
            ("LIFECYCLE_ERROR",
             <["appState" := JSON_stringify_tree tree]>
               (<["stackTrace" := componentStack]> exceptionInfo))
        | RuntimeException _ errorObject =>
            ("JS_ERROR",
             <["appState" := JSON_stringify_tree tree]>
               (<["stackTrace" := JSON_stringify errorObject]> exceptionInfo))
        | _ => ("error", exceptionInfo)
        end in
      appendLog errorCode ERROR exceptionInfo now s
  end.

(** What the program does with the logger over time: calls of its
    methods, and calls of the closures that [log] returned. *)
Variant Op : Type :=
| OpSetContext (context : gmap string ContextValue)
| OpLog (arg : string + Exception) (info : option (gmap string string))
        (tree : gmap string JsVal) (now : Z)
| OpInvoke (cb : Callback) (now : Z).

Definition step (s : State) (op : Op) : State :=
  match op with
  | OpSetContext context => setContext context s
  | OpLog arg info tree now => (log arg info tree now s).2
  | OpInvoke cb now => invoke cb now s
  end.

Definition run (ops : list Op) (s : State) : State := foldl step s ops.

(** [op] calls the closure over the event [ref]. *)
Definition invokes (ref : nat) (op : Op) : bool :=
  match op with
  | OpInvoke (StampElapsedTime r) _ => bool_decide (r = ref)
  | _ => false
  end.
End WithPlatform.

End EventLogger.

(** ** LoggerImpl *)
Module LoggerImpl.

Record Log : Type := {
  date : Z;
  result : ResultClass;
  context : gmap string string;
  info : gmap string string;
  elapsedTime : Z;
  action : option string;
  errorCode : option string;
}.

(** As for [EventLogger.State]: the event objects created so far, and the
    logger's fields, the queue holding references. *)
Record State : Type := {
  objects : list Log;
  environmentContext : gmap string ContextValue;
  logQueue : list nat;
}.

(** [{...this.environmentContext, ...context}]: the later spread wins. *)
Definition addContext (context : gmap string ContextValue) (s : State) : State :=
  {| objects := objects s;
     environmentContext := context ∪ environmentContext s;
     logQueue := logQueue s |}.

Definition appendLog (result : ResultClass) (action errorCode : option string)
    (info : option (gmap string string)) (now : Z) (s : State) : Callback * State :=
  let completeContext := resolve <$> environmentContext s in
  let event :=
    {| date := now; result := result; action := action; errorCode := errorCode;
       info := default ∅ info; context := completeContext; elapsedTime := 0 |} in
  let ref := length (objects s) in
  (StampElapsedTime ref,
   {| objects := objects s ++ [event]; environmentContext := environmentContext s;
      logQueue := logQueue s ++ [ref] |}).

Definition info_ (action : string) (info : option (gmap string string))
    (now : Z) (s : State) : Callback * State :=
  appendLog OK (Some action) None info now s.

Definition warn (errorCode : string) (action : option string)
    (info : option (gmap string string)) (now : Z) (s : State) : Callback * State :=
  appendLog WARN action (Some errorCode) info now s.

Definition error (errorCode : string) (action : option string)
    (info : option (gmap string string)) (now : Z) (s : State) : Callback * State :=
  appendLog ERROR action (Some errorCode) info now s.

Definition collect (s : State) : list nat := logQueue s.

Definition empty (s : State) : State :=
  {| objects := objects s; environmentContext := environmentContext s; logQueue := [] |}.

(** [event.elapsedTime = t] *)
Definition set_elapsedTime (t : Z) (event : Log) : Log :=
  {| date := date event; result := result event; context := context event;
     info := info event; elapsedTime := t;
     action := action event; errorCode := errorCode event |}.

(** [event.elapsedTime = new Date().getTime() - event.date.getTime()] *)
Definition stamp (now : Z) (event : Log) : Log :=
  set_elapsedTime (now - date event) event.

(** Calling the closure at clock reading [now]. *)
Definition invoke (cb : Callback) (now : Z) (s : State) : State :=
  match cb with
  | StampElapsedTime ref =>
      {| objects := alter (stamp now) ref (objects s);
         environmentContext := environmentContext s; logQueue := logQueue s |}
  end.

(** From [s] to [s'], one event object [event] was created and put at the
    end of the queue, and [cb] is the closure over it. *)
Definition appended (s s' : State) (cb : Callback) (event : Log) : Prop :=
  cb = StampElapsedTime (length (objects s))
  /\ objects s' = objects s ++ [event]
  /\ logQueue s' = logQueue s ++ [length (objects s)]
  /\ environmentContext s' = environmentContext s.

Section WithPlatform.
Context `{Platform}.

(** [new LoggerImpl()] *)
Definition new : State :=
  {| objects := []; environmentContext := loggerContext; logQueue := [] |}.

(** [tree] is [app.store.getState().app]. *)
Definition exception (exception : Exception) (tree : gmap string JsVal)
    (now : Z) (s : State) : Callback * State :=
  match exception with
  | NetworkConnectionException message =>
      appendLog WARN None (Some "NETWORK_FAILURE")
        (Some {[ "errorMessage" := message ]}) now s
  | _ =>
      let info : gmap string string := {[ "errorMessage" := message_of exception ]} in
      let '(errorCode, info) :=
        match exception with
        | APIException _ statusCode requestURL errorId errorCode =>
            let info := <["requestURL" := requestURL]> info in
            let info :=
              if truthy_string errorCode
              then <["errorCode" := default "" errorCode]> info else info in
            let info :=
              if truthy_string errorId
              then <["errorId" := default "" errorId]> info else info in
            ("API_ERROR:" +:+ number_toString statusCode, info)
        | ReactLifecycleException _ componentStack =>
            ("LIFECYCLE_ERROR",
             <["appState" := JSON_stringify_tree tree]>
               (<["stackTrace" := componentStack]> info))
        | RuntimeException _ errorObject =>
            ("JS_ERROR",
             <["appState" := JSON_stringify_tree tree]>
               (<["stackTrace" := JSON_stringify errorObject]> info))
        | _ => ("ERROR", info)
        end in
      appendLog ERROR None (Some errorCode) (Some info) now s
  end.

(** What the program does with the logger over time: calls of its
    methods, and calls of the closures that the logging methods
    returned. *)
Variant Call : Type :=
| Info (action : string) (info : option (gmap string string))
| Warn (errorCode : string) (action : option string)
       (info : option (gmap string string))
| Error (errorCode : string) (action : option string)
        (info : option (gmap string string))
| LogException (e : Exception) (tree : gmap string JsVal).

Definition call (c : Call) (now : Z) (s : State) : Callback * State :=
  match c with
  | Info action info => info_ action info now s
  | Warn errorCode action info => warn errorCode action info now s
  | Error errorCode action info => error errorCode action info now s
  | LogException e tree => exception e tree now s
  end.

Variant Op : Type :=
| OpAddContext (context : gmap string ContextValue)
| OpCall (c : Call) (now : Z)
| OpEmpty
| OpInvoke (cb : Callback) (now : Z).

Definition step (s : State) (op : Op) : State :=
  match op with
  | OpAddContext context => addContext context s
  | OpCall c now => (call c now s).2
  | OpEmpty => empty s
  | OpInvoke cb now => invoke cb now s
  end.

Definition run (ops : list Op) (s : State) : State := foldl step s ops.

(** [op] calls the closure over the event [ref]. *)
Definition invokes (ref : nat) (op : Op) : bool :=
  match op with
  | OpInvoke (StampElapsedTime r) _ => bool_decide (r = ref)
  | _ => false
  end.
End WithPlatform.

End LoggerImpl.

(** ** The process-wide [app] *)

Record App : Type := {
  (** [app.store.getState().app], the State Tree *)
  store_state : gmap string JsVal;
  (** the actions given to [app.store.dispatch], oldest first *)
  store_dispatched : list Action;
  actionHandlers : gmap string ActionHandler;
  (** the [actionName] property of the function objects, by identity *)
  fn_actionName : gmap nat string;
  logger : LoggerImpl.State;
}.

(** What [new ModuleProxy(module, actions)] is given. *)
Definition ActionCreator : Type := list JsVal -> Action.

Record ModuleProxy : Type := {
  proxy_module : AppModule;
  proxy_actions : gmap string ActionCreator;
}.

(** [typeof stateOrUpdater === "function"] tells the two apart. *)
Variant StateOrUpdater `{Platform} : Type :=
| UpdaterFn (updater : Draft -> Draft)
| PartialState (partialState : JsVal).

(** Raised by [method.actionName = ...] on a value that does not take the
    property, and by [method.bind] when [method] is not a function. *)
Definition TypeError : JsVal := VStr "TypeError".

Section Runtime.
Context `{Platform}.

(** [app.store.dispatch(action)] *)
Definition dispatch (action : Action) (app : App) : App :=
  {| store_state := reducer (store_state app) action;
     store_dispatched := store_dispatched app ++ [action];
     actionHandlers := actionHandlers app;
     fn_actionName := fn_actionName app;
     logger := logger app |}.

(** [app.store.getState().app[moduleName]]: the State Tree is a plain
    object, so the read of a name that it does not hold goes on to
    [Object.prototype]. *)
Definition slice (moduleName : string) (app : App) : JsVal :=
  plain_object_get (store_state app) moduleName.

(** One turn of the [forEach] of [register]: [actions] is the object under
    construction. *)
Definition register_key (module : AppModule) (moduleName actionType : string)
    (actions : gmap string ActionCreator) (app : App)
    : Outcome (gmap string ActionCreator) * App :=
  match get module actionType (store_state app) with
  | Throws e => (Throws e, app)
  | Ok (PVal _) => (Throws TypeError, app)
  | Ok (PFun method) =>
      let qualifiedActionType := moduleName +:+ "/" +:+ actionType in
      if negb (fn_extensible method) then (Throws TypeError, app) else
      (Ok (<[actionType := fun payload => ModuleAction qualifiedActionType payload]> actions),
       {| store_state := store_state app;
          store_dispatched := store_dispatched app;
          actionHandlers :=
            <[qualifiedActionType := fn_body method (self module)]> (actionHandlers app);
          fn_actionName :=
            <[fn_ref method := qualifiedActionType]> (fn_actionName app);
          logger := logger app |})
  end.

Fixpoint register_forEach (module : AppModule) (moduleName : string)
    (keys : list string) (actions : gmap string ActionCreator) (app : App)
    : Outcome (gmap string ActionCreator) * App :=
  match keys with
  | [] => (Ok actions, app)
  | actionType :: rest =>
      match register_key module moduleName actionType actions app with
      | (Throws e, app) => (Throws e, app)
      | (Ok actions, app) => register_forEach module moduleName rest actions app
      end
  end.

Definition register (module : AppModule) (app : App) : Outcome ModuleProxy * App :=
  let moduleName := name module in
  let app :=
    if negb (truthy (slice moduleName app))
    then dispatch (setStateAction moduleName (initialState module)
                     ("@@" +:+ moduleName +:+ "/@@init")) app
    else app in
  match getKeys module (store_state app) with
  | Throws e => (Throws e, app)
  | Ok keys =>
      match register_forEach module moduleName keys ∅ app with
      | (Throws e, app) => (Throws e, app)
      | (Ok actions, app) =>
          (Ok {| proxy_module := module; proxy_actions := actions |}, app)
      end
  end.

(** Calling a synthesized creator in the process: the arrow function
    [(...payload) => ({type: qualifiedActionType, payload})] only builds
    its object. *)
Definition call_creator (creator : ActionCreator) (payload : list JsVal)
    (app : App) : Action * App :=
  (creator payload, app).

(** [this.state] *)
Definition state (this : AppModule) (app : App) : JsVal :=
  slice (name this) app.

(** The branch of [setState] for a function. *)
Definition setState_function (this : AppModule) (updater : Draft -> Draft)
    (app : App) : Outcome unit * App :=
  let originalState := state this app in
  match produce originalState (fun draftState => updater draftState) development with
  | Throws e => (Throws e, app)
  | Ok (newState, patches) =>
      let patchDescriptions : option (list string) :=
        if development then map (String.concat ".") <$> patches else None in
      if negb (strict_equal newState originalState) then
        let description :=
          "@@" +:+ name this +:+ "/setState" +:+
          match patchDescriptions with
          | Some ds => "[" +:+ String.concat "/" ds +:+ "]"
          | None => ""
          end in
        (Ok tt, dispatch (setStateAction (name this) newState description) app)
      else (Ok tt, app)
  end.

(** The other branch calls [this.setState] with an arrow function, which
    takes the first branch. *)
Definition setState (this : AppModule) (stateOrUpdater : StateOrUpdater)
    (app : App) : Outcome unit * App :=
  match stateOrUpdater with
  | UpdaterFn updater => setState_function this updater app
  | PartialState partialState =>
      setState_function this (fun state => Object_assign state partialState) app
  end.

End Runtime.

(** ** Vocabulary of the statements *)

(** The seven lifecycle hooks of [ModuleLifecycleListener]. *)
Definition lifecycle_hooks : list string :=
  ["onEnter"; "onDestroy"; "onTick"; "onAppActive"; "onAppInactive"; "onFocus"; "onBlur"].

(** The test of [getKeys] on one property name: the module holds a function
    there, read without raising, and the name is not ["constructor"]. *)
Definition is_key (module : AppModule) (tree : gmap string JsVal) (p : string) : bool :=
  match get module p tree with
  | Ok v => instanceof_Function v && negb (String.eqb p "constructor")
  | Throws _ => false
  end.

(** The method a key is bound to: [module[actionType].bind(module)]. *)
Definition bound_method (module : AppModule) (tree : gmap string JsVal)
    (actionType : string) : option ActionHandler :=
  match get module actionType tree with
  | Ok (PFun method) => Some (fn_body method (self module))
  | _ => None
  end.

(** [`${moduleName}/${actionType}`] *)
Definition qualified (moduleName actionType : string) : string :=
  moduleName +:+ "/" +:+ actionType.

(** The module holds under the name a function that takes the assignment of
    [actionName]. *)
Definition key_extensible (module : AppModule) (tree : gmap string JsVal)
    (p : string) : bool :=
  match get module p tree with
  | Ok (PFun method) => fn_extensible method
  | _ => false
  end.

(** Nothing in the module itself stands in the way of registering it: the
    reads of the prototype's own properties raise nothing, and the functions
    under its keys take the assignment of [actionName]. *)
Definition registrable (module : AppModule) (tree : gmap string JsVal) : bool :=
  match getKeys module tree with
  | Ok keys => forallb (key_extensible module tree) keys
  | Throws _ => false
  end.

(** The process once the first statement of [register] has run: seeded with
    [initialState] when [!app.store.getState().app[moduleName]]. *)
Definition seeded `{Platform} (module : AppModule) (app : App) : App :=
  if negb (truthy (slice (name module) app))
  then dispatch (setStateAction (name module) (initialState module)
                   ("@@" +:+ name module +:+ "/@@init")) app
  else app.

(** ** A sample process

    A small platform and a few modules, for the examples below. Its reducer
    replaces the slice that a state-replacement action names; its drafts are
    the slice values themselves, and [produce] hands back what the recipe
    leaves, reporting no patch. *)
Module Sample.

Definition platform : Platform := {|
  reducer := fun tree action =>
    match action with
    | setStateAction module state _ => <[module := state]> tree
    | _ => tree
    end;
  development := true;
  Draft := JsVal;
  produce := fun base recipe listener =>
    Ok (recipe base, if listener then Some [] else None);
  Object_assign := fun draft partialState => partialState;
  JSON_stringify := fun _ => "{}";
  JSON_stringify_tree := fun _ => "{}";
  loggerContext := {[ "app" := CtxString "sample" ]};
|}.

(** [function* () { yield call(fetch); throw "boom" }] *)
Definition failing : ActionHandler :=
  fun _ => Vis (Yield (OtherEffect (VStr "call"))) (fun _ => Ret (Raised (VStr "boom"))).

(** [function* () {}] *)
Definition finishing : ActionHandler := fun _ => Ret Completed.

Definition constructor_fn : Method :=
  {| fn_ref := 0; fn_body := fun _ => finishing; fn_extensible := true |}.
Definition load1 : Method :=
  {| fn_ref := 1; fn_body := fun _ => finishing; fn_extensible := true |}.
Definition onEnter1 : Method :=
  {| fn_ref := 2; fn_body := fun _ => finishing; fn_extensible := true |}.
Definition load2 : Method :=
  {| fn_ref := 3; fn_body := fun _ => failing; fn_extensible := true |}.

(** [class UserModule extends Module { *load() {..}  *onEnter() {..} }] *)
Definition user1 : AppModule := {|
  self := 1; name := "user"; initialState := VObj 10; fields := ∅;
  proto := [("constructor", Value (PFun constructor_fn));
            ("load", Value (PFun load1));
            ("onEnter", Value (PFun onEnter1))];
  inherited := [];
|}.

(** A second instance, of another class, under the same name. *)
Definition user2 : AppModule := {|
  self := 2; name := "user"; initialState := VObj 20; fields := ∅;
  proto := [("constructor", Value (PFun constructor_fn));
            ("load", Value (PFun load2))];
  inherited := [];
|}.

(** A module whose slice is a number. *)
Definition counter : AppModule := {|
  self := 3; name := "counter"; initialState := VNum 5; fields := ∅;
  proto := [("constructor", Value (PFun constructor_fn))];
  inherited := [];
|}.

Definition app0 : App := {|
  store_state := ∅; store_dispatched := []; actionHandlers := ∅;
  fn_actionName := ∅; logger := @LoggerImpl.new platform;
|}.

(** The process after [register(user1)]. *)
Definition app1 : App := (@register platform user1 app0).2.

(** A process in which the counter stands at [5]. *)
Definition app_counter5 : App := {|
  store_state := {[ "counter" := VNum 5 ]}; store_dispatched := [];
  actionHandlers := ∅; fn_actionName := ∅; logger := @LoggerImpl.new platform;
|}.

(** A process in which the counter has come down to [0]. *)
Definition app_counter0 : App := {|
  store_state := {[ "counter" := VNum 0 ]}; store_dispatched := [];
  actionHandlers := ∅; fn_actionName := ∅; logger := @LoggerImpl.new platform;
|}.

(** A module whose slice is a number that is not one: [NaN]. *)
Definition gauge : AppModule := {|
  self := 6; name := "gauge"; initialState := VNaN; fields := ∅;
  proto := [("constructor", Value (PFun constructor_fn))];
  inherited := [];
|}.

(** A process in which the slice of [gauge] is [NaN]. *)
Definition app_gauge : App := {|
  store_state := {[ "gauge" := VNaN ]}; store_dispatched := [];
  actionHandlers := ∅; fn_actionName := ∅; logger := @LoggerImpl.new platform;
|}.

Definition notFound : Exception :=
  APIException "Not Found" 404 "https://example.org/api/user" None None.

End Sample.

(** ** The default lifecycle hooks

    The seven hooks of the class [Module] ([src/platform/Module.tsx]) are
    generators with an empty body. *)

Definition onEnter : ActionHandler := fun routeParameters => Ret Completed.
Definition onDestroy : ActionHandler := fun _ => Ret Completed.
Definition onTick : ActionHandler := fun _ => Ret Completed.
Definition onAppActive : ActionHandler := fun _ => Ret Completed.
Definition onAppInactive : ActionHandler := fun _ => Ret Completed.
Definition onFocus : ActionHandler := fun _ => Ret Completed.
Definition onBlur : ActionHandler := fun _ => Ret Completed.

Definition default_hooks : list (string * ActionHandler) :=
  [("onEnter", onEnter); ("onDestroy", onDestroy); ("onTick", onTick);
   ("onAppActive", onAppActive); ("onAppInactive", onAppInactive);
   ("onFocus", onFocus); ("onBlur", onBlur)].

(** [function* () { while (true) { yield take("tick") } }] *)
Definition polling : ActionHandler :=
  fun _ => ITree.forever (ITree.trigger (Yield (OtherEffect (VStr "take")))).

(** ** Further vocabulary for the registrar *)

(** What the first own property of the prototype whose read raises, raises. *)
Fixpoint first_raise (module : AppModule) (tree : gmap string JsVal)
    (propertyNames : list string) : option JsVal :=
  match propertyNames with
  | [] => None
  | propertyName :: rest =>
      match get module propertyName tree with
      | Throws e => Some e
      | Ok _ => first_raise module tree rest
      end
  end.

(** The function object that the module holds under a name. *)
Definition key_method (module : AppModule) (tree : gmap string JsVal)
    (p : string) : option Method :=
  match get module p tree with
  | Ok (PFun method) => Some method
  | _ => None
  end.

(** The assignments [method.actionName = qualifiedActionType] that the
    [forEach] of [register] makes, in order. *)
Definition actionName_writes (module : AppModule) (tree : gmap string JsVal)
    (keys : list string) : list (nat * string) :=
  omap (fun k => (fun method => (fn_ref method, qualified (name module) k))
                   <$> key_method module tree k) keys.

(** The value that a sequence of assignments leaves under [r], if any of
    them writes there: the last one wins. *)
Fixpoint last_write (r : nat) (writes : list (nat * string)) : option string :=
  match writes with
  | [] => None
  | (r', v) :: rest =>
      match last_write r rest with
      | Some w => Some w
      | None => if bool_decide (r' = r) then Some v else None
      end
  end.

(** The string holds a ["/"]. *)
Fixpoint has_slash (s : string) : bool :=
  match s with
  | EmptyString => false
  | String c rest => String.eqb (String c "") "/" || has_slash rest
  end.

(** ** [useModuleAction]

    [src/hooks.ts]. The hook returns
    [(...args) => dispatch(actionCreator(...deps, ...args))], where
    [dispatch] is the store's; [React.useCallback] only decides when a new
    function object is made, which the embedding does not track. *)
Definition useModuleAction `{Platform} (actionCreator : ActionCreator)
    (deps : list JsVal) : list JsVal -> App -> App :=
  fun args app => dispatch (actionCreator (deps ++ args)) app.

(** ** More samples *)
Module MoreSamples.

(** A class with an accessor that raises when the slice ["user"] is missing:
    [get email() { return this.rootState.app.user.email }]. *)
Definition profile : AppModule := {|
  self := 4; name := "profile"; initialState := VObj 40; fields := ∅;
  proto := [("constructor", Value (PFun Sample.constructor_fn));
            ("load", Value (PFun Sample.load1));
            ("email",
             Accessor (fun tree =>
               match tree !! "user" with
               | Some _ => Ok (PVal (VStr "a@example.org"))
               | None => Throws TypeError
               end));
            ("save", Value (PFun Sample.load2))];
  inherited := [];
|}.

(** A module of another name, with a method [load] as [Sample.user1] has. *)
Definition cart : AppModule := {|
  self := 5; name := "cart"; initialState := VObj 50; fields := ∅;
  proto := [("constructor", Value (PFun Sample.constructor_fn));
            ("load", Value (PFun Sample.load2))];
  inherited := [];
|}.

(** A module that was given the name of a member of [Object.prototype]. *)
Definition printer : AppModule := {|
  self := 8; name := "toString"; initialState := VObj 80; fields := ∅;
  proto := [("constructor", Value (PFun Sample.constructor_fn));
            ("load", Value (PFun Sample.load1))];
  inherited := [];
|}.

(** [Object.freeze(ArchiveModule.prototype.save)] *)
Definition frozen_save : Method :=
  {| fn_ref := 5; fn_body := fun _ => Sample.finishing; fn_extensible := false |}.

(** A class one of whose methods was frozen. *)
Definition archive : AppModule := {|
  self := 7; name := "archive"; initialState := VObj 70; fields := ∅;
  proto := [("constructor", Value (PFun Sample.constructor_fn));
            ("load", Value (PFun Sample.load1));
            ("save", Value (PFun frozen_save));
            ("purge", Value (PFun Sample.load2))];
  inherited := [];
|}.

End MoreSamples.

(** ** Further vocabulary for the loggers *)

(** The number of events in the queue of [LoggerImpl] after [ops], when it
    held [n] before: a logging call adds one, [empty()] takes all. *)
Definition LoggerImpl_queued_after (n : nat) (ops : list LoggerImpl.Op) : nat :=
  foldl (fun n op =>
           match op with
           | LoggerImpl.OpCall _ _ => S n
           | LoggerImpl.OpEmpty => 0
           | _ => n
           end) n ops.

(** The number of calls of [log] among [ops]. *)
Definition EventLogger_logged (ops : list EventLogger.Op) : nat :=
  length (List.filter (fun op => match op with EventLogger.OpLog _ _ _ _ => true | _ => false end)
            ops).

(** The clock reading of the last call, among [ops], of the closure over the
    event [ref]; [acc] when there is none. *)
Definition LoggerImpl_last_invocation (ref : nat) (acc : option Z)
    (ops : list LoggerImpl.Op) : option Z :=
  foldl (fun acc op =>
           match op with
           | LoggerImpl.OpInvoke (StampElapsedTime r) now =>
               if bool_decide (r = ref) then Some now else acc
           | _ => acc
           end) acc ops.

(** The event as its closure's last call, if any, left it. *)
Definition LoggerImpl_stamped (last : option Z) (event : LoggerImpl.Log) : LoggerImpl.Log :=
  match last with
  | Some now => LoggerImpl.stamp now event
  | None => event
  end.

(** ** Events that differ in [elapsedTime] alone

    [e'] has every field of [e] but, possibly, [elapsedTime]. *)
Definition LoggerImpl_same_but_elapsedTime (e e' : LoggerImpl.Log) : Prop :=
  LoggerImpl.date e' = LoggerImpl.date e
  /\ LoggerImpl.result e' = LoggerImpl.result e
  /\ LoggerImpl.context e' = LoggerImpl.context e
  /\ LoggerImpl.info e' = LoggerImpl.info e
  /\ LoggerImpl.action e' = LoggerImpl.action e
  /\ LoggerImpl.errorCode e' = LoggerImpl.errorCode e.

Definition EventLogger_same_but_elapsedTime (e e' : EventLogger.EventLog) : Prop :=
  EventLogger.id e' = EventLogger.id e
  /\ EventLogger.date e' = EventLogger.date e
  /\ EventLogger.result e' = EventLogger.result e
  /\ EventLogger.context e' = EventLogger.context e
  /\ EventLogger.info e' = EventLogger.info e
  /\ EventLogger.action e' = EventLogger.action e
  /\ EventLogger.errorCode e' = EventLogger.errorCode e.

(** Calling the closure [cb] at each of the clock readings [nows], in
    order. *)
Definition LoggerImpl_invoke_all (cb : Callback) (nows : list Z)
    (s : LoggerImpl.State) : LoggerImpl.State :=
  foldl (fun s now => LoggerImpl.invoke cb now s) s nows.

Definition EventLogger_invoke_all (cb : Callback) (nows : list Z)
    (s : EventLogger.State) : EventLogger.State :=
  foldl (fun s now => EventLogger.invoke cb now s) s nows.

(** ** The reducer, as [state] relies on it

    What the getter [state] of a module gives after a dispatch depends on
    the store's reducer, which is in [./reducer] and not among the sources.
    The statements about [state] after [register] or [setState] take as a
    hypothesis that a state-replacement action puts its state under its
    module's name and leaves the other slices as they are. *)
Definition reducer_replaces_slice `{Platform} : Prop :=
  forall (tree : gmap string JsVal) (module : string) (state : JsVal) (type : string),
    reducer tree (setStateAction module state type) = <[module := state]> tree.


(** * Properties *)

(** ** The action pipeline *)








(** ** The registrar *)

Section RegistrarFacts.
Context `{Platform}.

Lemma qualified_inj moduleName k1 k2 :
  qualified moduleName k1 = qualified moduleName k2 -> k1 = k2.
Proof.
  unfold qualified. intros E.
  apply (inj (String.app moduleName)) in E. by apply (inj (String.app "/")) in E.
Qed.

Lemma getKeys_loop_Ok module tree names keys ks :
  getKeys_loop module tree names keys = Ok ks ->
  ks = keys ++ List.filter (is_key module tree) names.
Proof.
  revert keys. induction names as [|p names IH]; intros keys; simpl.
  - intros [= <-]. by rewrite app_nil_r.
  - unfold is_key at 1. destruct (get module p tree) as [v|e]; [|discriminate].
    destruct (instanceof_Function v && negb (String.eqb p "constructor")).
    + intros E. rewrite (IH _ E). by rewrite <- app_assoc.
    + apply IH.
Qed.

Lemma getKeys_Ok module tree keys :
  getKeys module tree = Ok keys ->
  keys = List.filter (is_key module tree) (map fst (proto module)).
Proof. intros E. by apply getKeys_loop_Ok in E. Qed.

Lemma is_key_bound module tree p :
  is_key module tree p = true ->
  exists method, get module p tree = Ok (PFun method) /\ p <> "constructor".
Proof.
  unfold is_key. destruct (get module p tree) as [[v|method]|e]; simpl; try discriminate.
  intros E. exists method. split; [done|].
  intros ->. discriminate E.
Qed.

Lemma register_key_inv module moduleName actionType actions app actions' app' :
  register_key module moduleName actionType actions app = (Ok actions', app') ->
  exists method,
    get module actionType (store_state app) = Ok (PFun method)
    /\ fn_extensible method = true
    /\ actions' = <[actionType := fun payload =>
                      ModuleAction (qualified moduleName actionType) payload]> actions
    /\ store_state app' = store_state app
    /\ store_dispatched app' = store_dispatched app
    /\ logger app' = logger app
    /\ actionHandlers app' =
         <[qualified moduleName actionType := fn_body method (self module)]>
           (actionHandlers app)
    /\ fn_actionName app' =
         <[fn_ref method := qualified moduleName actionType]> (fn_actionName app).
Proof.
  unfold register_key.
  destruct (get module actionType (store_state app)) as [[v|method]|e];
    [discriminate| |discriminate].
  destruct (fn_extensible method) eqn:Hext; simpl; [|discriminate].
  intros [= <- <-]. exists method. by repeat split.
Qed.

(** A turn that raises has written nothing. *)
Lemma register_key_throws module moduleName actionType actions app e app' :
  register_key module moduleName actionType actions app = (Throws e, app') ->
  app' = app /\
  (is_key module (store_state app) actionType = true ->
   e = TypeError /\ key_extensible module (store_state app) actionType = false).
Proof.
  unfold register_key, is_key, key_extensible.
  destruct (get module actionType (store_state app)) as [[v|method]|e0].
  - intros [= <- <-]. by split.
  - destruct (fn_extensible method); simpl; [discriminate|].
    intros [= <- <-]. by split.
  - intros [= <- <-]. by split.
Qed.

Lemma register_key_Ok module moduleName actionType actions app :
  key_extensible module (store_state app) actionType = true ->
  exists actions' app',
    register_key module moduleName actionType actions app = (Ok actions', app').
Proof.
  unfold key_extensible, register_key.
  destruct (get module actionType (store_state app)) as [[v|method]|e]; try discriminate.
  intros ->. simpl. by eexists _, _.
Qed.

(** The [forEach] of [register], when it ends without raising. *)
Lemma register_forEach_inv module moduleName keys :
  forall actions app actions' app',
  register_forEach module moduleName keys actions app = (Ok actions', app') ->
  store_state app' = store_state app
  /\ store_dispatched app' = store_dispatched app
  /\ logger app' = logger app
  /\ (forall p, actions' !! p =
        if decide (p ∈ keys)
        then Some (fun payload => ModuleAction (qualified moduleName p) payload)
        else actions !! p)
  /\ (forall k, k ∈ keys ->
        is_Some (bound_method module (store_state app) k) /\
        actionHandlers app' !! qualified moduleName k =
          bound_method module (store_state app) k)
  /\ (forall q, (forall k, k ∈ keys -> q <> qualified moduleName k) ->
        actionHandlers app' !! q = actionHandlers app !! q)
  /\ Forall (fun k => key_extensible module (store_state app) k = true) keys.
Proof.
  induction keys as [|k keys IH]; intros actions app actions' app' E.
  - injection E as <- <-.
    split; [done|]. split; [done|]. split; [done|]. split; [done|].
    split; [intros k' Hk'; by apply elem_of_nil in Hk'|]. split; [done|].
    apply Forall_nil_2.
  - simpl in E.
    destruct (register_key module moduleName k actions app) as [[actions1|e] app1] eqn:E1;
      [|discriminate].
    destruct (register_key_inv _ _ _ _ _ _ _ E1)
      as (method & Hget & Hext & -> & Ht1 & Hd1 & Hl1 & Hh1 & _).
    destruct (IH _ _ _ _ E) as (Ht & Hd & Hl & Ha & Hb & Ho & Hx).
    rewrite Ht1 in Hb, Hx.
    assert (bound_method module (store_state app) k = Some (fn_body method (self module)))
      as Hbk by (unfold bound_method; by rewrite Hget).
    split; [congruence|]. split; [congruence|]. split; [congruence|].
    split; [|split; [|split]].
    + intros p. rewrite Ha. destruct (decide (p = k)) as [->|Hne].
      * destruct (decide (k ∈ k :: keys)) as [_|Hn]; [|by destruct Hn; left].
        case_decide; [done|]. by rewrite lookup_insert_eq.
      * rewrite lookup_insert_ne by done.
        destruct (decide (p ∈ keys)) as [Hin|Hnin];
          destruct (decide (p ∈ k :: keys)) as [Hin'|Hnin']; try done.
        -- destruct Hnin'. by right.
        -- apply elem_of_cons in Hin' as [->|Hin']; done.
    + intros k' Hk'. destruct (decide (k' ∈ keys)) as [Hin|Hnin]; [by apply Hb|].
      apply elem_of_cons in Hk' as [->|Hin]; [|done].
      rewrite Hbk. split; [done|]. rewrite Ho, Hh1.
      * by rewrite lookup_insert_eq.
      * intros k' Hk' E'. apply qualified_inj in E'. by subst.
    + intros q Hq. rewrite Ho, Hh1.
      * rewrite lookup_insert_ne; [done|]. intros <-. apply (Hq k); [by left|done].
      * intros k' Hk'. apply Hq. by right.
    + apply Forall_cons. split; [|done]. unfold key_extensible. by rewrite Hget.
Qed.

Lemma register_forEach_Ok module moduleName keys :
  forall actions app,
  Forall (fun k => key_extensible module (store_state app) k = true) keys ->
  exists actions' app',
    register_forEach module moduleName keys actions app = (Ok actions', app').
Proof.
  induction keys as [|k keys IH]; intros actions app Hkeys; [by eexists _, _|].
  apply Forall_cons in Hkeys as [Hk Hkeys].
  destruct (register_key_Ok module moduleName k actions app Hk) as (actions1 & app1 & E1).
  destruct (register_key_inv _ _ _ _ _ _ _ E1) as (_ & _ & _ & _ & Ht1 & _).
  rewrite <- Ht1 in Hkeys.
  destruct (IH actions1 app1 Hkeys) as (actions' & app' & E).
  exists actions', app'. simpl. by rewrite E1.
Qed.

(** The [forEach] of [register], when it raises: it has gone through the
    keys before the first one whose function does not take [actionName], and
    stopped there. *)
Lemma register_forEach_throws module moduleName keys :
  forall actions app e app',
  register_forEach module moduleName keys actions app = (Throws e, app') ->
  Forall (fun k => is_key module (store_state app) k = true) keys ->
  e = TypeError /\
  exists before k after actions1,
    keys = before ++ k :: after
    /\ key_extensible module (store_state app) k = false
    /\ register_forEach module moduleName before actions app = (Ok actions1, app').
Proof.
  induction keys as [|k keys IH]; intros actions app e app' E Hkeys; [discriminate|].
  apply Forall_cons in Hkeys as [Hk Hkeys]. simpl in E.
  destruct (register_key module moduleName k actions app) as [[actions1|e1] app1] eqn:E1.
  - destruct (register_key_inv _ _ _ _ _ _ _ E1) as (_ & _ & _ & _ & Ht1 & _).
    rewrite <- Ht1 in Hkeys.
    destruct (IH _ _ _ _ E Hkeys) as (-> & before & k' & after & a1 & -> & Hx & Eb).
    split; [done|]. exists (k :: before), k', after, a1.
    split; [done|]. split; [by rewrite <- Ht1|]. simpl. by rewrite E1.
  - injection E as <- <-.
    destruct (register_key_throws _ _ _ _ _ _ _ E1) as (-> & Hthrow).
    destruct (Hthrow Hk) as (-> & Hx).
    split; [done|]. by exists [], k, keys, actions.
Qed.

Lemma getKeys_is_key module tree keys :
  getKeys module tree = Ok keys ->
  Forall (fun k => is_key module tree k = true) keys.
Proof.
  intros Ek. rewrite (getKeys_Ok _ _ _ Ek). apply Forall_forall. intros k Hk.
  apply list_elem_of_In, filter_In in Hk. tauto.
Qed.

Lemma seeded_frame module app :
  actionHandlers (seeded module app) = actionHandlers app /\
  fn_actionName (seeded module app) = fn_actionName app /\
  logger (seeded module app) = logger app.
Proof. unfold seeded. by case_match. Qed.

(** [register], when it returns. *)
Lemma register_Ok_inv module app proxy app' :
  register module app = (Ok proxy, app') ->
  exists keys actions,
    getKeys module (store_state (seeded module app)) = Ok keys
    /\ proxy = {| proxy_module := module; proxy_actions := actions |}
    /\ store_state app' = store_state (seeded module app)
    /\ store_dispatched app' = store_dispatched (seeded module app)
    /\ logger app' = logger app
    /\ (forall p, actions !! p =
          if decide (p ∈ keys)
          then Some (fun payload => ModuleAction (qualified (name module) p) payload)
          else None)
    /\ (forall k, k ∈ keys ->
          actionHandlers app' !! qualified (name module) k =
            bound_method module (store_state app') k)
    /\ (forall q, (forall k, k ∈ keys -> q <> qualified (name module) k) ->
          actionHandlers app' !! q = actionHandlers app !! q)
    /\ register_forEach module (name module) keys ∅ (seeded module app) = (Ok actions, app').
Proof.
  unfold register. fold (seeded module app).
  destruct (getKeys module (store_state (seeded module app))) as [keys|e] eqn:Ek;
    [|discriminate].
  destruct (register_forEach module (name module) keys ∅ (seeded module app))
    as [[actions|e] app1] eqn:E; [|discriminate].
  intros [= <- <-]. exists keys, actions.
  destruct (register_forEach_inv _ _ _ _ _ _ _ E) as (Ht & Hd & Hl & Ha & Hb & Ho & _).
  destruct (seeded_frame module app) as (Hsh & _ & Hsl).
  repeat split; try done.
  - congruence.
  - intros k Hk. rewrite Ht. by apply Hb.
  - intros q Hq. by rewrite (Ho q Hq), Hsh.
Qed.

(** [register], when it raises: either a read of an own property of the
    prototype raised, before any key was written, or the function under one
    of the keys did not take [actionName], after the keys before it were
    written. *)
Lemma register_throws_inv module app e app' :
  register module app = (Throws e, app') ->
  (getKeys module (store_state (seeded module app)) = Throws e /\ app' = seeded module app)
  \/
  (e = TypeError /\
   exists keys before k after actions1,
     getKeys module (store_state (seeded module app)) = Ok keys
     /\ keys = before ++ k :: after
     /\ key_extensible module (store_state (seeded module app)) k = false
     /\ register_forEach module (name module) before ∅ (seeded module app) =
          (Ok actions1, app')).
Proof.
  unfold register. fold (seeded module app).
  destruct (getKeys module (store_state (seeded module app))) as [keys|e0] eqn:Ek.
  - destruct (register_forEach module (name module) keys ∅ (seeded module app))
      as [[actions|e1] app1] eqn:E; [discriminate|].
    intros [= <- <-]. right.
    destruct (register_forEach_throws _ _ _ _ _ _ _ E (getKeys_is_key _ _ _ Ek))
      as (-> & before & k & after & a1 & Hkeys & Hx & Eb).
    split; [done|]. by exists keys, before, k, after, a1.
  - intros [= <- <-]. by left.
Qed.

Lemma register_registrable module app :
  registrable module (store_state (seeded module app)) = true <->
  exists proxy app', register module app = (Ok proxy, app').
Proof.
  unfold registrable. split.
  - destruct (getKeys module (store_state (seeded module app))) as [keys|e] eqn:Ek;
      [|discriminate].
    intros Hall. pose proof (proj1 (forallb_forall _ _) Hall) as Hall'.
    destruct (register_forEach_Ok module (name module) keys ∅ (seeded module app))
      as (actions & app' & E).
    { apply Forall_forall. intros k Hk. by apply Hall', list_elem_of_In. }
    unfold register. fold (seeded module app). rewrite Ek, E. by eexists _, _.
  - intros (proxy & app' & E).
    destruct (register_Ok_inv _ _ _ _ E) as (keys & actions & -> & _ & _ & _ & _ & _ & _ & _ & Ef).
    destruct (register_forEach_inv _ _ _ _ _ _ _ Ef) as (_ & _ & _ & _ & _ & _ & Hx).
    apply (proj2 (forallb_forall _ _)). intros k Hk. apply list_elem_of_In in Hk.
    by apply (proj1 (Forall_forall _ _) Hx).
Qed.

Lemma seeded_truthy module app :
  truthy (slice (name module) app) = true -> seeded module app = app.
Proof. intros Hv. unfold seeded. by rewrite Hv. Qed.

Lemma seeded_falsy module app :
  truthy (slice (name module) app) = false ->
  seeded module app =
    dispatch (setStateAction (name module) (initialState module)
                ("@@" +:+ name module +:+ "/@@init")) app.
Proof. intros Hv. unfold seeded. by rewrite Hv. Qed.

Lemma register_store module app :
  store_state (register module app).2 = store_state (seeded module app) /\
  store_dispatched (register module app).2 = store_dispatched (seeded module app).
Proof.
  destruct (register module app) as [[proxy|e] app'] eqn:E; simpl.
  - by destruct (register_Ok_inv _ _ _ _ E) as (keys & actions & _ & _ & Ht & Hd & _).
  - destruct (register_throws_inv _ _ _ _ E)
      as [[_ ->]|(_ & keys & before & k & after & a1 & _ & _ & _ & Ef)]; [done|].
    by destruct (register_forEach_inv _ _ _ _ _ _ _ Ef) as (Ht & Hd & _).
Qed.

(** C3, as the code has it. Two instances that share a name are both
    accepted: once the first is registered, registering the second does not
    fail on the name, which [register] does not look at. Whenever nothing in
    the second module itself stands in the way (the reads of its own
    properties raise nothing and its methods take the assignment of
    [actionName]), [register] returns the second module's proxy, and each
    handler-table entry of the second module's keys is bound to the second
    instance, whatever the first had put there; the entries of the shared
    name under other keys stay as the first registration left them. *)
Theorem register_duplicate_name_last_wins
    (m1 m2 : AppModule) (app app1 : App) (proxy1 : ModuleProxy) (keys : list string) :
  name m1 = name m2 -> self m1 <> self m2 ->
  register m1 app = (Ok proxy1, app1) ->
  getKeys m2 (store_state (seeded m2 app1)) = Ok keys ->
  forallb (key_extensible m2 (store_state (seeded m2 app1))) keys = true ->
  exists proxy2 app2,
    register m2 app1 = (Ok proxy2, app2)
    /\ proxy_module proxy2 = m2
    /\ (forall k, k ∈ keys ->
          is_Some (bound_method m2 (store_state app2) k) /\
          is_Some (proxy_actions proxy2 !! k) /\
          actionHandlers app2 !! qualified (name m1) k =
            bound_method m2 (store_state app2) k)
    /\ (forall k, k ∉ keys ->
          proxy_actions proxy2 !! k = None /\
          actionHandlers app2 !! qualified (name m1) k =
            actionHandlers app1 !! qualified (name m1) k).
Proof.
  intros Hname _ _ Hkeys Hext.
  assert (registrable m2 (store_state (seeded m2 app1)) = true) as Hreg.
  { unfold registrable. by rewrite Hkeys. }
  apply register_registrable in Hreg as (proxy2 & app2 & E).
  exists proxy2, app2. split; [done|].
  destruct (register_Ok_inv _ _ _ _ E)
    as (keys' & actions & Hk & -> & Ht & _ & _ & Ha & Hb & Ho & Ef).
  assert (keys' = keys) as -> by congruence.
  destruct (register_forEach_inv _ _ _ _ _ _ _ Ef) as (_ & _ & _ & _ & Hs & _).
  split; [done|]. rewrite Hname. simpl. split.
  - intros k Hin. destruct (Hs k Hin) as [Hsome _].
    split; [by rewrite Ht|]. split; [|by apply Hb].
    rewrite Ha. by rewrite decide_True.
  - intros k Hnin. split; [rewrite Ha; by rewrite decide_False|].
    apply Ho. intros k' Hin E'. apply qualified_inj in E'. by subst.
Qed.

(** C5, as the code has it. The members that [register] turns into action
    creators and handler-table entries are exactly the own property names
    of the module's prototype, other than ["constructor"], at which the
    module holds a function: no other name is left out, so a lifecycle hook
    or [onError] defined on the module's class is registered like any other
    method. No other entry of the handler table changes. *)
Theorem register_registers_prototype_functions
    (module : AppModule) (app app' : App) (proxy : ModuleProxy) :
  register module app = (Ok proxy, app') ->
  (forall p, is_Some (proxy_actions proxy !! p) <->
     p ∈ map fst (proto module) /\ is_key module (store_state app') p = true)
  /\ (forall p, p ∈ map fst (proto module) ->
        is_key module (store_state app') p = true ->
        is_Some (bound_method module (store_state app') p) /\
        actionHandlers app' !! qualified (name module) p =
          bound_method module (store_state app') p)
  /\ (forall q,
        (forall p, p ∈ map fst (proto module) ->
           is_key module (store_state app') p = true ->
           q <> qualified (name module) p) ->
        actionHandlers app' !! q = actionHandlers app !! q).
Proof.
  intros E.
  destruct (register_Ok_inv _ _ _ _ E)
    as (keys & actions & Hk & -> & Ht & _ & _ & Ha & Hb & Ho & _).
  clear E. simpl. rewrite Ht.
  assert (forall p, p ∈ keys <->
            p ∈ map fst (proto module) /\
            is_key module (store_state (seeded module app)) p = true) as Hin.
  { intros p. rewrite (getKeys_Ok _ _ _ Hk), !list_elem_of_In, filter_In. tauto. }
  split; [|split].
  - intros p. rewrite Ha, <- Hin. case_decide; [by split|].
    split; [by intros [? [=]]|done].
  - intros p Hp Hkey. split.
    + unfold bound_method. by destruct (is_key_bound _ _ _ Hkey) as (method & -> & _).
    + rewrite <- Ht. apply Hb, Hin. done.
  - intros q Hq. apply Ho. intros k Hkin. by apply Hq; apply Hin.
Qed.

(** C6. Whatever the module, of name [N]: each creator [actions.m] that
    [register] synthesizes returns, for every argument list, the descriptor
    [{type: "N/m", payload: args}], with the arguments in order; and the
    call changes nothing in the process: nothing is dispatched, and the
    State Tree, the handler table and the log queue are as before. *)
Theorem action_creator_shape
    (module : AppModule) (app app' : App) (proxy : ModuleProxy)
    (m : string) (creator : ActionCreator) :
  register module app = (Ok proxy, app') ->
  proxy_actions proxy !! m = Some creator ->
  forall (args : list JsVal) (w : App),
    creator args = ModuleAction (name module +:+ "/" +:+ m) args /\
    call_creator creator args w = (ModuleAction (name module +:+ "/" +:+ m) args, w).
Proof.
  intros E Hm.
  destruct (register_Ok_inv _ _ _ _ E)
    as (keys & actions & _ & -> & _ & _ & _ & Ha & _ & _ & _).
  clear E. simpl in Hm. rewrite Ha in Hm.
  case_decide; [|discriminate]. injection Hm as <-.
  intros args w. by unfold call_creator.
Qed.

End RegistrarFacts.

Section RegistrarExamples.
#[local] Existing Instance Sample.platform.

(** C3 as it is written fails: [user2] is registered after [user1] under
    the same name, [register] returns its proxy, and the handler of
    ["user/load"] is now the second module's. *)
Lemma register_accepts_duplicate_name :
  name Sample.user1 = name Sample.user2 /\
  self Sample.user1 <> self Sample.user2 /\
  actionHandlers Sample.app1 !! "user/load" = Some Sample.finishing /\
  exists proxy2 app2,
    register Sample.user2 Sample.app1 = (Ok proxy2, app2) /\
    actionHandlers app2 !! "user/load" = Some Sample.failing.
Proof.
  split; [done|]. split; [done|]. split; [by vm_compute|].
  eexists _, _. split; [by vm_compute|]. by vm_compute.
Qed.

Lemma register_duplicate_name_last_wins_witness :
  exists proxy2 app2,
    register Sample.user2 Sample.app1 = (Ok proxy2, app2)
    /\ proxy_module proxy2 = Sample.user2
    /\ (forall k, k ∈ ["load"] ->
          is_Some (bound_method Sample.user2 (store_state app2) k) /\
          is_Some (proxy_actions proxy2 !! k) /\
          actionHandlers app2 !! qualified (name Sample.user1) k =
            bound_method Sample.user2 (store_state app2) k)
    /\ (forall k, k ∉ ["load"] ->
          proxy_actions proxy2 !! k = None /\
          actionHandlers app2 !! qualified (name Sample.user1) k =
            actionHandlers Sample.app1 !! qualified (name Sample.user1) k).
Proof.
  eapply (register_duplicate_name_last_wins
            Sample.user1 Sample.user2 Sample.app0 Sample.app1 _ ["load"]).
  - reflexivity.
  - vm_compute. discriminate.
  - vm_compute. reflexivity.
  - vm_compute. reflexivity.
  - vm_compute. reflexivity.
Defined.

(** C4. The code departs from the sentence on a slice that is there but
    falsy. The State Tree of [app_counter0] holds the slice [0] under the
    name ["counter"], so the module's slice is already present; [register]
    nevertheless dispatches the seeding action for [counter], whose
    [initialState] is [5], and the slice that was there is replaced: the
    State Tree holds [5] under ["counter"] afterwards. *)
Theorem register_reseeds_falsy_slice :
  store_state Sample.app_counter0 !! name Sample.counter = Some (VNum 0) /\
  initialState Sample.counter = VNum 5 /\
  store_dispatched Sample.app_counter0 = [] /\
  store_dispatched (register Sample.counter Sample.app_counter0).2 =
    [setStateAction "counter" (VNum 5) "@@counter/@@init"] /\
  store_state (register Sample.counter Sample.app_counter0).2 !! "counter" =
    Some (VNum 5).
Proof. repeat split; by vm_compute. Qed.

(** C5 as it is written fails: [user1] overrides [onEnter], and [register]
    gives it an action creator and a handler-table entry. *)
Lemma register_registers_lifecycle_hook :
  "onEnter" ∈ lifecycle_hooks /\
  exists proxy app',
    register Sample.user1 Sample.app0 = (Ok proxy, app') /\
    is_Some (proxy_actions proxy !! "onEnter") /\
    actionHandlers app' !! "user/onEnter" = Some Sample.finishing.
Proof.
  split; [by left|]. eexists _, _. split; [by vm_compute|].
  split; [|by vm_compute]. eexists. by vm_compute.
Qed.

Lemma register_registers_prototype_functions_witness :
  is_Some (bound_method Sample.user1 (store_state Sample.app1) "load") /\
  actionHandlers Sample.app1 !! qualified "user" "load" =
    bound_method Sample.user1 (store_state Sample.app1) "load".
Proof.
  refine (proj1 (proj2 (register_registers_prototype_functions
                          Sample.user1 Sample.app0 Sample.app1 _ _)) "load" _ _).
  - vm_compute. reflexivity.
  - right. left.
  - vm_compute. reflexivity.
Defined.

(** [actions.load(1, "x")] for the module ["user"]. *)
Lemma action_creator_shape_witness :
  exists creator,
    creator [VNum 1; VStr "x"] = ModuleAction "user/load" [VNum 1; VStr "x"] /\
    call_creator creator [VNum 1; VStr "x"] Sample.app1 =
      (ModuleAction "user/load" [VNum 1; VStr "x"], Sample.app1).
Proof.
  eexists.
  eapply (action_creator_shape Sample.user1 Sample.app0 Sample.app1 _ "load").
  - vm_compute. reflexivity.
  - vm_compute. reflexivity.
Defined.
End RegistrarExamples.

(** ** [Module.setState] *)

Section SetStateFacts.
Context `{Platform}.

Lemma strict_equal_spec (a b : JsVal) :
  strict_equal a b = true <-> a = b /\ a <> VNaN.
Proof.
  split.
  - destruct a, b; simpl; try discriminate; intros E; split; try done.
    + by apply Bool.eqb_prop in E as ->.
    + by apply Z.eqb_eq in E as ->.
    + by apply String.eqb_eq in E as ->.
    + by apply Nat.eqb_eq in E as ->.
    + by apply String.eqb_eq in E as ->.
  - intros [<- Hn]. destruct a; simpl; try done.
    + apply Bool.eqb_reflx.
    + apply Z.eqb_refl.
    + apply String.eqb_refl.
    + apply Nat.eqb_refl.
    + apply String.eqb_refl.
Qed.

Lemma strict_equal_false (a b : JsVal) :
  strict_equal a b = false <-> a <> b \/ a = VNaN.
Proof.
  rewrite <- Bool.not_true_iff_false, strict_equal_spec. split.
  - intros Hn. destruct (decide (a = VNaN)) as [|Hnan]; [by right|].
    left. intros ->. by apply Hn.
  - intros [Hne| ->] [E Hn]; done.
Qed.

Lemma dispatch_dispatched action app :
  store_dispatched (dispatch action app) = store_dispatched app ++ [action].
Proof. reflexivity. Qed.

(** C2. The code departs from the sentence on a slice that is [NaN].
    Whatever the module and the updater: when the module's slice is [NaN]
    and [produce] returns that same [NaN] for it, the updater having changed
    nothing, [setState] all the same dispatches one state-replacement
    action, for the module's name and carrying [NaN], because
    [NaN !== NaN] holds. *)
Theorem setState_dispatches_unchanged_NaN
    (this : AppModule) (updater : Draft -> Draft) (app : App)
    (patches : option (list (list string))) :
  state this app = VNaN ->
  produce (state this app) updater development = Ok (state this app, patches) ->
  exists description,
    setState this (UpdaterFn updater) app =
      (Ok tt, dispatch (setStateAction (name this) VNaN description) app)
    /\ store_dispatched (setState this (UpdaterFn updater) app).2 =
         store_dispatched app ++ [setStateAction (name this) VNaN description].
Proof.
  intros Es E. unfold setState, setState_function.
  change (fun draftState => updater draftState) with updater. rewrite E, Es. simpl.
  eexists. split; reflexivity.
Qed.

(** C7. Whatever the module and the partial state [p], [setState(p)] is
    [setState(draft => Object.assign(draft, p))]: the two calls end alike
    and leave the same process, so the same State Tree and the same
    dispatched actions. *)
Theorem setState_partial_is_assign
    (this : AppModule) (partialState : JsVal) (app : App) :
  setState this (PartialState partialState) app =
  setState this (UpdaterFn (fun draft => Object_assign draft partialState)) app.
Proof. reflexivity. Qed.

End SetStateFacts.

Section SetStateExamples.
#[local] Existing Instance Sample.platform.

(** The slice of [gauge] is [NaN] and the updater leaves its draft alone:
    one replacement action is dispatched. *)
Lemma setState_dispatches_unchanged_NaN_witness :
  exists description,
    setState Sample.gauge (UpdaterFn (fun draft => draft)) Sample.app_gauge =
      (Ok tt, dispatch (setStateAction "gauge" VNaN description) Sample.app_gauge)
    /\ store_dispatched
         (setState Sample.gauge (UpdaterFn (fun draft => draft)) Sample.app_gauge).2 =
         store_dispatched Sample.app_gauge ++ [setStateAction "gauge" VNaN description].
Proof.
  refine (setState_dispatches_unchanged_NaN
            Sample.gauge (fun draft => draft) Sample.app_gauge (Some []) _ _).
  - vm_compute. reflexivity.
  - vm_compute. reflexivity.
Defined.

End SetStateExamples.

(** ** The loggers *)

Section LoggerImplFacts.
Context `{Platform}.
Import LoggerImpl.

Lemma LoggerImpl_appendLog_appended result action errorCode info now s :
  appended s (appendLog result action errorCode info now s).2
    (appendLog result action errorCode info now s).1
    {| date := now; result := result; action := action; errorCode := errorCode;
       info := default ∅ info; context := resolve <$> environmentContext s;
       elapsedTime := 0 |}.
Proof. by repeat split. Qed.

(** Every logging method ends in one call of [appendLog]. *)
Lemma LoggerImpl_call_appendLog c now s :
  exists result action errorCode info,
    call c now s = appendLog result action errorCode info now s.
Proof.
  destruct c as [action info|errorCode action info|errorCode action info|e tree]; simpl.
  - by eexists _, _, _, _.
  - by eexists _, _, _, _.
  - by eexists _, _, _, _.
  - destruct e; simpl; by eexists _, _, _, _.
Qed.

Lemma LoggerImpl_call_appended c now s :
  exists event,
    appended s (call c now s).2 (call c now s).1 event
    /\ elapsedTime event = 0%Z /\ date event = now.
Proof.
  destruct (LoggerImpl_call_appendLog c now s) as (r & a & e & i & ->).
  eexists. split; [apply LoggerImpl_appendLog_appended|done].
Qed.


Lemma LoggerImpl_step_keeps s op ref event :
  invokes ref op = false ->
  objects s !! ref = Some event ->
  objects (step s op) !! ref = Some event.
Proof.
  intros Hop E. destruct op as [context|c now| |[r] now]; simpl; try done.
  - destruct (LoggerImpl_call_appended c now s) as (ev & (_ & -> & _) & _).
    by apply lookup_app_l_Some.
  - simpl in Hop. apply bool_decide_eq_false in Hop.
    by rewrite list_lookup_alter_ne.
Qed.



Lemma LoggerImpl_set_elapsedTime_fields t event :
  elapsedTime (set_elapsedTime t event) = t
  /\ LoggerImpl_same_but_elapsedTime event (set_elapsedTime t event).
Proof. by repeat split. Qed.

(** One call of the closure over the event [ref]. *)
Lemma LoggerImpl_invoke_event ref now s event :
  objects s !! ref = Some event ->
  let s' := invoke (StampElapsedTime ref) now s in
  (exists event',
      objects s' !! ref = Some event'
      /\ elapsedTime event' = (now - date event)%Z
      /\ LoggerImpl_same_but_elapsedTime event event')
  /\ (forall r, r <> ref -> objects s' !! r = objects s !! r)
  /\ length (objects s') = length (objects s)
  /\ logQueue s' = logQueue s
  /\ environmentContext s' = environmentContext s.
Proof.
  intros E s'. subst s'. simpl. split.
  - exists (stamp now event). split; [by rewrite list_lookup_alter_eq, E|].
    apply LoggerImpl_set_elapsedTime_fields.
  - split; [by intros r Hr; apply list_lookup_alter_ne|].
    split; [apply length_alter|]. by split.
Qed.

End LoggerImplFacts.

Section EventLoggerFacts.
Context `{Platform}.
Import EventLogger.

Lemma EventLogger_appendLog_appended actionOrErrorCode result info now s :
  appended s (appendLog actionOrErrorCode result info now s).2
    (appendLog actionOrErrorCode result info now s).1
    {| id := number_toString_16 (uuidCounter s); date := now; result := result;
       info := info; context := resolve <$> environmentContext s; elapsedTime := 0;
       action := match result with OK => Some actionOrErrorCode | _ => None end;
       errorCode := match result with OK => None | _ => Some actionOrErrorCode end |}.
Proof. by repeat split. Qed.

(** Every branch of [log] ends in one call of [appendLog]. *)
Lemma EventLogger_log_appendLog arg info tree now s :
  exists actionOrErrorCode result info',
    log arg info tree now s = appendLog actionOrErrorCode result info' now s.
Proof.
  destruct arg as [action|e]; simpl; [by eexists _, _, _|].
  destruct e; simpl; by eexists _, _, _.
Qed.






Lemma EventLogger_set_elapsedTime_fields t event :
  elapsedTime (set_elapsedTime t event) = t
  /\ EventLogger_same_but_elapsedTime event (set_elapsedTime t event).
Proof. by repeat split. Qed.

(** One call of the closure over the event [ref]. *)
Lemma EventLogger_invoke_event ref now s event :
  objects s !! ref = Some event ->
  let s' := invoke (StampElapsedTime ref) now s in
  (exists event',
      objects s' !! ref = Some event'
      /\ elapsedTime event' = (now - date event)%Z
      /\ EventLogger_same_but_elapsedTime event event')
  /\ (forall r, r <> ref -> objects s' !! r = objects s !! r)
  /\ length (objects s') = length (objects s)
  /\ logQueue s' = logQueue s
  /\ environmentContext s' = environmentContext s
  /\ uuidCounter s' = uuidCounter s.
Proof.
  intros E s'. subst s'. simpl. split.
  - exists (stamp now event). split; [by rewrite list_lookup_alter_eq, E|].
    apply EventLogger_set_elapsedTime_fields.
  - split; [by intros r Hr; apply list_lookup_alter_ne|].
    split; [apply length_alter|]. by split.
Qed.

End EventLoggerFacts.

Section LoggerClaims.
Context `{Platform}.

(** C8, as the code has it. Logging an [APIException] of status code [s]
    appends one event of result class [ERROR], with [errorCode]
    ["API_ERROR:"] followed by [s] in decimal and [info.requestURL] the
    exception's request URL, through [LoggerImpl.exception] as through
    [EventLogger.log]; through [EventLogger.log] the event also carries
    [info.statusCode], the decimal string of [s]. Logging a
    [NetworkConnectionException] appends, through either, one event of
    result class [WARN] with [errorCode] ["NETWORK_FAILURE"]. *)
Theorem exception_classification :
  (forall message s requestURL errorId errorCode tree now st,
     let e := APIException message s requestURL errorId errorCode in
     exists event,
       LoggerImpl.appended st (LoggerImpl.exception e tree now st).2
         (LoggerImpl.exception e tree now st).1 event
       /\ LoggerImpl.result event = ERROR
       /\ LoggerImpl.errorCode event = Some ("API_ERROR:" +:+ number_toString s)
       /\ LoggerImpl.info event !! "requestURL" = Some requestURL)
  /\ (forall message s requestURL errorId errorCode info tree now st,
        let e := APIException message s requestURL errorId errorCode in
        exists event,
          EventLogger.appended st (EventLogger.log (inr e) info tree now st).2
            (EventLogger.log (inr e) info tree now st).1 event
          /\ EventLogger.result event = ERROR
          /\ EventLogger.errorCode event = Some ("API_ERROR:" +:+ number_toString s)
          /\ EventLogger.info event !! "requestURL" = Some requestURL
          /\ EventLogger.info event !! "statusCode" = Some (number_toString s))
  /\ (forall message tree now st,
        let e := NetworkConnectionException message in
        exists event,
          LoggerImpl.appended st (LoggerImpl.exception e tree now st).2
            (LoggerImpl.exception e tree now st).1 event
          /\ LoggerImpl.result event = WARN
          /\ LoggerImpl.errorCode event = Some "NETWORK_FAILURE")
  /\ (forall message info tree now st,
        let e := NetworkConnectionException message in
        exists event,
          EventLogger.appended st (EventLogger.log (inr e) info tree now st).2
            (EventLogger.log (inr e) info tree now st).1 event
          /\ EventLogger.result event = WARN
          /\ EventLogger.errorCode event = Some "NETWORK_FAILURE").
Proof.
  split; [|split; [|split]].
  - intros message s requestURL errorId errorCode tree now st e. subst e.
    unfold LoggerImpl.exception, message_of. cbv beta iota zeta.
    eexists. split; [apply LoggerImpl_appendLog_appended|]. simpl.
    split; [done|]. split; [done|].
    destruct (truthy_string errorId), (truthy_string errorCode);
      by simplify_map_eq.
  - intros message s requestURL errorId errorCode info tree now st e. subst e.
    unfold EventLogger.log, message_of. cbv beta iota zeta.
    eexists. split; [apply EventLogger_appendLog_appended|]. simpl.
    split; [done|]. split; [done|]. by simplify_map_eq.
  - intros message tree now st e. subst e.
    unfold LoggerImpl.exception. cbv beta iota zeta.
    eexists. split; [apply LoggerImpl_appendLog_appended|]. done.
  - intros message info tree now st e. subst e.
    unfold EventLogger.log. cbv beta iota zeta.
    eexists. split; [apply EventLogger_appendLog_appended|]. done.
Qed.


Lemma LoggerImpl_invoke_all_event ref nows :
  forall s event,
  LoggerImpl.objects s !! ref = Some event ->
  let s' := LoggerImpl_invoke_all (StampElapsedTime ref) nows s in
  (exists event',
      LoggerImpl.objects s' !! ref = Some event'
      /\ LoggerImpl.elapsedTime event' =
           match last nows with
           | Some now => (now - LoggerImpl.date event)%Z
           | None => LoggerImpl.elapsedTime event
           end
      /\ LoggerImpl_same_but_elapsedTime event event')
  /\ (forall r, r <> ref -> LoggerImpl.objects s' !! r = LoggerImpl.objects s !! r)
  /\ length (LoggerImpl.objects s') = length (LoggerImpl.objects s)
  /\ LoggerImpl.logQueue s' = LoggerImpl.logQueue s
  /\ LoggerImpl.environmentContext s' = LoggerImpl.environmentContext s.
Proof.
  induction nows as [|now nows IH] using rev_ind; intros s event E s'; subst s'.
  - simpl. split; [|done]. exists event. by repeat split.
  - unfold LoggerImpl_invoke_all in *. rewrite foldl_app. cbn [foldl].
    destruct (IH s event E) as ((ev1 & E1 & _ & Hsame1) & Ho1 & Hl1 & Hq1 & Hc1).
    destruct (LoggerImpl_invoke_event ref now _ _ E1)
      as ((ev2 & E2 & Het & Hsame2) & Ho2 & Hl2 & Hq2 & Hc2).
    destruct Hsame1 as (Hd & Hr & Hc & Hi & Ha & He).
    destruct Hsame2 as (Hd' & Hr' & Hc' & Hi' & Ha' & He').
    split.
    + exists ev2. split; [exact E2|]. rewrite last_snoc.
      split; [by rewrite Het, Hd|]. repeat split; congruence.
    + split; [intros r Hr0; by rewrite (Ho2 r Hr0), (Ho1 r Hr0)|].
      repeat split; congruence.
Qed.

Lemma EventLogger_invoke_all_event ref nows :
  forall s event,
  EventLogger.objects s !! ref = Some event ->
  let s' := EventLogger_invoke_all (StampElapsedTime ref) nows s in
  (exists event',
      EventLogger.objects s' !! ref = Some event'
      /\ EventLogger.elapsedTime event' =
           match last nows with
           | Some now => (now - EventLogger.date event)%Z
           | None => EventLogger.elapsedTime event
           end
      /\ EventLogger_same_but_elapsedTime event event')
  /\ (forall r, r <> ref -> EventLogger.objects s' !! r = EventLogger.objects s !! r)
  /\ length (EventLogger.objects s') = length (EventLogger.objects s)
  /\ EventLogger.logQueue s' = EventLogger.logQueue s
  /\ EventLogger.environmentContext s' = EventLogger.environmentContext s
  /\ EventLogger.uuidCounter s' = EventLogger.uuidCounter s.
Proof.
  induction nows as [|now nows IH] using rev_ind; intros s event E s'; subst s'.
  - simpl. split; [|done]. exists event. by repeat split.
  - unfold EventLogger_invoke_all in *. rewrite foldl_app. cbn [foldl].
    destruct (IH s event E) as ((ev1 & E1 & _ & Hsame1) & Ho1 & Hl1 & Hq1 & Hc1 & Hu1).
    destruct (EventLogger_invoke_event ref now _ _ E1)
      as ((ev2 & E2 & Het & Hsame2) & Ho2 & Hl2 & Hq2 & Hc2 & Hu2).
    destruct Hsame1 as (Hid & Hd & Hr & Hc & Hi & Ha & He).
    destruct Hsame2 as (Hid' & Hd' & Hr' & Hc' & Hi' & Ha' & He').
    split.
    + exists ev2. split; [exact E2|]. rewrite last_snoc.
      split; [by rewrite Het, Hd|]. repeat split; congruence.
    + split; [intros r Hr0; by rewrite (Ho2 r Hr0), (Ho1 r Hr0)|].
      repeat split; congruence.
Qed.

(** C10. The closure that a logging call returned may be called any number
    of times. After the calls at the clock readings [nows] and then a last
    one at [now], the event object it was made for is in its place, its
    [elapsedTime] is [now] minus the event's date, so what the last call
    measured, whatever the earlier calls had written, and its other fields
    are as they were; every other event object, the number of event
    objects, the queue and the logging context are as before the calls. *)
Theorem callback_overwrites_elapsedTime
    (ref : nat) (nows : list Z) (now : Z) :
  (forall (s : LoggerImpl.State) (event : LoggerImpl.Log),
     LoggerImpl.objects s !! ref = Some event ->
     let s' := LoggerImpl_invoke_all (StampElapsedTime ref) (nows ++ [now]) s in
     (exists event',
         LoggerImpl.objects s' !! ref = Some event'
         /\ LoggerImpl.elapsedTime event' = (now - LoggerImpl.date event)%Z
         /\ LoggerImpl_same_but_elapsedTime event event')
     /\ (forall r, r <> ref -> LoggerImpl.objects s' !! r = LoggerImpl.objects s !! r)
     /\ length (LoggerImpl.objects s') = length (LoggerImpl.objects s)
     /\ LoggerImpl.logQueue s' = LoggerImpl.logQueue s
     /\ LoggerImpl.environmentContext s' = LoggerImpl.environmentContext s)
  /\ (forall (s : EventLogger.State) (event : EventLogger.EventLog),
        EventLogger.objects s !! ref = Some event ->
        let s' := EventLogger_invoke_all (StampElapsedTime ref) (nows ++ [now]) s in
        (exists event',
            EventLogger.objects s' !! ref = Some event'
            /\ EventLogger.elapsedTime event' = (now - EventLogger.date event)%Z
            /\ EventLogger_same_but_elapsedTime event event')
        /\ (forall r, r <> ref ->
              EventLogger.objects s' !! r = EventLogger.objects s !! r)
        /\ length (EventLogger.objects s') = length (EventLogger.objects s)
        /\ EventLogger.logQueue s' = EventLogger.logQueue s
        /\ EventLogger.environmentContext s' = EventLogger.environmentContext s
        /\ EventLogger.uuidCounter s' = EventLogger.uuidCounter s).
Proof.
  split.
  - intros s event E.
    pose proof (LoggerImpl_invoke_all_event ref (nows ++ [now]) s event E) as Hall.
    by rewrite last_snoc in Hall.
  - intros s event E.
    pose proof (EventLogger_invoke_all_event ref (nows ++ [now]) s event E) as Hall.
    by rewrite last_snoc in Hall.
Qed.

End LoggerClaims.

Section LoggerExamples.
#[local] Existing Instance Sample.platform.

(** C8 as it is written fails: the event that [LoggerImpl.exception]
    appends for a 404 has no [info.statusCode]. *)
Lemma LoggerImpl_exception_omits_statusCode :
  exists event,
    LoggerImpl.appended LoggerImpl.new
      (LoggerImpl.exception Sample.notFound ∅ 1000 LoggerImpl.new).2
      (LoggerImpl.exception Sample.notFound ∅ 1000 LoggerImpl.new).1 event
    /\ LoggerImpl.errorCode event = Some "API_ERROR:404"
    /\ LoggerImpl.info event !! "statusCode" = None.
Proof.
  eexists. split; [by repeat split|]. split; by vm_compute.
Qed.

(** A 404 logged through [EventLogger.log]. *)
Lemma exception_classification_witness :
  exists event,
    EventLogger.appended (EventLogger.new 1000)
      (EventLogger.log (inr Sample.notFound) None ∅ 1000 (EventLogger.new 1000)).2
      (EventLogger.log (inr Sample.notFound) None ∅ 1000 (EventLogger.new 1000)).1
      event
    /\ EventLogger.result event = ERROR
    /\ EventLogger.errorCode event = Some "API_ERROR:404"
    /\ EventLogger.info event !! "requestURL" = Some "https://example.org/api/user"
    /\ EventLogger.info event !! "statusCode" = Some "404".
Proof.
  exact (proj1 (proj2 exception_classification)
           "Not Found" 404%Z "https://example.org/api/user" None None
           None ∅ 1000%Z (EventLogger.new 1000)).
Defined.


(** [done()] at 1050 and again at 1080: the event reads 80. *)
Lemma callback_overwrites_elapsedTime_witness :
  let s := (LoggerImpl.call (LoggerImpl.Info "x" None) 1000 LoggerImpl.new).2 in
  exists event',
    LoggerImpl.objects
      (LoggerImpl.invoke (StampElapsedTime 0) 1080
         (LoggerImpl.invoke (StampElapsedTime 0) 1050 s)) !! 0 = Some event'
    /\ LoggerImpl.elapsedTime event' = 80%Z.
Proof.
  intros s.
  destruct (proj1 (callback_overwrites_elapsedTime 0 [1050%Z] 1080)
              s _ eq_refl) as ((event' & E & Het & _) & _).
  exists event'. split; [exact E|exact Het].
Defined.

End LoggerExamples.

(** * Further properties *)

(** ** Sagas that never raise *)

Lemma Leaf_runs (t : Saga) (c : Completion) :
  Leaf c t -> exists tr, runs t tr c.
Proof.
  induction 1 as [t E|t u E _ [tr IH]|X e t k x E _ [tr IH]].
  - exists []. apply runs_ret. unfold view. by rewrite E.
  - exists tr. eapply runs_tau; [|exact IH]. unfold view. by rewrite E.
  - destruct e as [eff]. exists ((eff, x) :: tr).
    eapply runs_yield; [|exact IH]. unfold view. by rewrite E.
Qed.

(** X1. A handler none of whose runs raises behaves under [executeAction]
    as it does alone: the two trees are strongly bisimilar, so they yield the
    same effects at the same points, also when the handler never ends. *)
Theorem executeAction_transparent
    (actionName : string) (handler : ActionHandler) (payload : list JsVal) :
  (forall tr error, ~ runs (handler payload) tr (Raised error)) ->
  eq_itree eq (executeAction actionName handler payload) (handler payload).
Proof.
  intros Hsafe. unfold executeAction.
  rewrite <- (bind_ret_r (handler payload)) at 2.
  eapply eqit_clo_bind_gen with (UU := eq); [reflexivity|].
  intros c ? Hleaf _ <-. destruct c as [|error]; [reflexivity|].
  destruct (Leaf_runs _ _ Hleaf) as [tr Hr]. by destruct (Hsafe tr error).
Qed.

Lemma polling_never_ends (payload : list JsVal) tr c :
  ~ runs (polling payload) tr c.
Proof.
  intros Hr.
  assert (forall t, runs t tr c ->
            view t = view (polling payload) \/ view t = StepTau (polling payload) ->
            False) as Hgen; [|by eapply Hgen; [exact Hr|left]].
  clear Hr. intros t Hr.
  induction Hr as [t c E|t u tr c E _ IH|t eff k r tr c E _ IH]; intros [Hv|Hv];
    rewrite E in Hv; try discriminate Hv.
  - injection Hv as ->. apply IH. by left.
  - apply IH. right. injection Hv as _ ->. reflexivity.
Qed.

(** A saga that polls forever is left as it is. *)
Lemma executeAction_transparent_witness :
  eq_itree eq (executeAction "user/poll" polling []) (polling []).
Proof.
  apply executeAction_transparent.
  intros tr error. apply polling_never_ends.
Defined.

(** X2. The default lifecycle hooks of [Module] do nothing: run through
    [executeAction], each of them completes at once, whatever the payload,
    without yielding an effect, so without an error action. *)
Theorem default_hooks_do_nothing
    (hookName : string) (hook : ActionHandler) (actionName : string)
    (payload : list JsVal) tr c :
  (hookName, hook) ∈ default_hooks ->
  runs (executeAction actionName hook payload) tr c <-> tr = [] /\ c = Completed.
Proof.
  intros Hin.
  assert (hook payload = Ret Completed) as Hhook.
  { unfold default_hooks in Hin.
    repeat (apply elem_of_cons in Hin as [[= _ ->]|Hin]; [reflexivity|]).
    by apply elem_of_nil in Hin. }
  unfold executeAction. rewrite Hhook. split.
  - intros Hr. inversion Hr as [? ? E|? ? ? ? E|? ? ? ? ? ? E]; subst;
      try discriminate E.
    by injection E as <-.
  - intros [-> ->]. by apply runs_ret.
Qed.

Lemma default_hooks_do_nothing_witness :
  runs (executeAction "user/onTick" onTick [VNum 1]) [] Completed.
Proof.
  apply (default_hooks_do_nothing "onTick" onTick "user/onTick" [VNum 1] [] Completed).
  - right. right. left.
  - done.
Defined.

(** ** More on the registrar *)

Section RegistrarMore.
Context `{Platform}.

Lemma getKeys_loop_first_raise module tree names keys :
  getKeys_loop module tree names keys =
  match first_raise module tree names with
  | Some e => Throws e
  | None => Ok (keys ++ List.filter (is_key module tree) names)
  end.
Proof.
  revert keys. induction names as [|p names IH]; intros keys; simpl.
  - by rewrite app_nil_r.
  - unfold is_key at 1. destruct (get module p tree) as [v|e]; [|done].
    destruct (instanceof_Function v && negb (String.eqb p "constructor")).
    + rewrite IH. destruct (first_raise module tree names); [done|].
      by rewrite <- app_assoc.
    + apply IH.
Qed.

(** X3. When no read raises, the keys that [getKeys] returns are own
    property names of the prototype, in the order of the prototype and each
    as often as it is listed there; ["constructor"] is never one of them, nor
    are ["name"] and ["initialState"], which the instance holds itself as
    data. *)
Theorem getKeys_keys (module : AppModule) (tree : gmap string JsVal) (keys : list string) :
  getKeys module tree = Ok keys ->
  keys `sublist_of` map fst (proto module)
  /\ (NoDup (map fst (proto module)) -> NoDup keys)
  /\ ("constructor" ∉ keys) /\ ("name" ∉ keys) /\ ("initialState" ∉ keys).
Proof.
  intros E. unfold getKeys in E. rewrite getKeys_loop_first_raise in E.
  destruct (first_raise module tree _); [discriminate|]. injection E as <-. simpl.
  assert (forall l, List.filter (is_key module tree) l `sublist_of` l) as Hsub.
  { induction l as [|p l IH]; simpl; [done|].
    destruct (is_key module tree p); [by apply sublist_skip|by apply sublist_cons]. }
  split; [apply Hsub|]. split; [intros Hnd; eapply sublist_NoDup; [exact Hnd|apply Hsub]|].
  assert (forall p, p ∈ List.filter (is_key module tree) (map fst (proto module)) ->
            is_key module tree p = true) as Hkey.
  { intros p Hp. apply list_elem_of_In, filter_In in Hp. tauto. }
  split; [|split]; intros Hin; apply Hkey in Hin; unfold is_key, get in Hin; simpl in Hin.
  - destruct (fields module !! "constructor"); [|destruct (lookup_member _ _) as [[|]|]];
      try discriminate Hin.
    + by rewrite andb_false_r in Hin.
    + by rewrite andb_false_r in Hin.
    + destruct (getter tree); [|done]. by rewrite andb_false_r in Hin.
  - discriminate Hin.
  - discriminate Hin.
Qed.

Lemma register_forEach_app module moduleName keys1 keys2 :
  forall actions app,
  register_forEach module moduleName (keys1 ++ keys2) actions app =
  match register_forEach module moduleName keys1 actions app with
  | (Ok actions1, app1) => register_forEach module moduleName keys2 actions1 app1
  | (Throws e, app1) => (Throws e, app1)
  end.
Proof.
  induction keys1 as [|k keys1 IH]; intros actions app; simpl; [done|].
  destruct (register_key module moduleName k actions app) as [[actions1|e] app1]; [|done].
  apply IH.
Qed.

Lemma register_key_TypeError module moduleName actionType actions app :
  is_key module (store_state app) actionType = true ->
  key_extensible module (store_state app) actionType = false ->
  register_key module moduleName actionType actions app = (Throws TypeError, app).
Proof.
  unfold is_key, key_extensible, register_key.
  destruct (get module actionType (store_state app)) as [[v|method]|e]; try done.
  by intros _ ->.
Qed.

(** X4. When [register] raises, and what it leaves. If reading one of the
    prototype's own properties raises, [register] raises what the first such
    read raised: by then the slice has been seeded if it was falsy, and
    nothing else has changed, no handler being registered. If the reads
    raise nothing, [register] returns a proxy when every key's function
    takes the assignment of [actionName]; and when [k] is the first key
    whose function does not, [register] raises a [TypeError] after the keys
    before [k] have been registered: their handler-table entries are bound
    to the module, every other entry is as it was, and nothing but the
    seeding was dispatched. So [register] raises exactly when the module is
    not registrable. *)
Theorem register_raises (module : AppModule) (app : App) :
  (forall e,
     first_raise module (store_state (seeded module app)) (map fst (proto module)) = Some e ->
     register module app = (Throws e, seeded module app) /\
     actionHandlers (seeded module app) = actionHandlers app)
  /\ (first_raise module (store_state (seeded module app)) (map fst (proto module)) = None ->
       exists keys,
         getKeys module (store_state (seeded module app)) = Ok keys
         /\ (forallb (key_extensible module (store_state (seeded module app))) keys = true ->
               exists proxy app', register module app = (Ok proxy, app'))
         /\ (forall before k after,
               keys = before ++ k :: after ->
               forallb (key_extensible module (store_state (seeded module app))) before
                 = true ->
               key_extensible module (store_state (seeded module app)) k = false ->
               exists app',
                 register module app = (Throws TypeError, app')
                 /\ store_state app' = store_state (seeded module app)
                 /\ store_dispatched app' = store_dispatched (seeded module app)
                 /\ (forall b, b ∈ before ->
                       is_Some (bound_method module (store_state app') b) /\
                       actionHandlers app' !! qualified (name module) b =
                         bound_method module (store_state app') b)
                 /\ (forall q, (forall b, b ∈ before -> q <> qualified (name module) b) ->
                       actionHandlers app' !! q = actionHandlers app !! q)))
  /\ ((exists e app', register module app = (Throws e, app')) <->
      registrable module (store_state (seeded module app)) = false).
Proof.
  pose proof (getKeys_loop_first_raise module (store_state (seeded module app))
                (map fst (proto module)) []) as Hk.
  fold (getKeys module (store_state (seeded module app))) in Hk.
  split; [|split].
  - intros e Hf. rewrite Hf in Hk. split; [|apply seeded_frame].
    unfold register. fold (seeded module app). by rewrite Hk.
  - intros Hf. rewrite Hf in Hk. simpl in Hk. eexists. split; [exact Hk|].
    set (keys := List.filter _ _) in *. split.
    + intros Hall. apply register_registrable. unfold registrable. by rewrite Hk.
    + intros before k after Hkeys Hall Hx.
      pose proof (getKeys_is_key _ _ _ Hk) as Hiskey. rewrite Hkeys in Hiskey.
      apply Forall_app in Hiskey as [_ Hiskey].
      apply Forall_cons in Hiskey as [Hisk _].
      destruct (register_forEach_Ok module (name module) before ∅ (seeded module app))
        as (actions1 & app1 & Eb).
      { apply Forall_forall. intros b Hb.
        by apply (proj1 (forallb_forall _ _) Hall), list_elem_of_In. }
      destruct (register_forEach_inv _ _ _ _ _ _ _ Eb) as (Ht & Hd & _ & _ & Hb & Ho & _).
      exists app1. split.
      * unfold register. fold (seeded module app). rewrite Hk, Hkeys.
        rewrite register_forEach_app, Eb. simpl.
        rewrite register_key_TypeError; [done| |]; by rewrite Ht.
      * split; [done|]. split; [done|]. split.
        -- intros b Hin. rewrite Ht. by apply Hb.
        -- intros q Hq. rewrite (Ho q Hq). by rewrite (proj1 (seeded_frame module app)).
  - split.
    + intros (e & app' & E).
      destruct (registrable module (store_state (seeded module app))) eqn:Hreg; [|done].
      apply register_registrable in Hreg as (proxy & app2 & E2). congruence.
    + intros Hreg. destruct (register module app) as [[proxy|e] app'] eqn:E.
      * assert (registrable module (store_state (seeded module app)) = true) as Hreg'.
        { apply register_registrable. by exists proxy, app'. }
        congruence.
      * by exists e, app'.
Qed.

Lemma foldl_insert_lookup (writes : list (nat * string)) (m : gmap nat string) (r : nat) :
  foldl (fun m w => <[w.1 := w.2]> m) m writes !! r =
  match last_write r writes with
  | Some v => Some v
  | None => m !! r
  end.
Proof.
  revert m. induction writes as [|[r' v] writes IH]; intros m; simpl; [done|].
  rewrite IH. destruct (last_write r writes); [done|].
  case_bool_decide as E.
  - subst. by rewrite lookup_insert_eq.
  - by rewrite lookup_insert_ne.
Qed.

Lemma last_write_elem_of r writes v :
  last_write r writes = Some v -> (r, v) ∈ writes.
Proof.
  induction writes as [|[r' v'] writes IH]; simpl; [done|].
  destruct (last_write r writes) as [w|].
  - intros [= ->]. right. by apply IH.
  - case_bool_decide; [|done]. intros [= ->]. subst. by left.
Qed.

Lemma last_write_None r writes v :
  last_write r writes = None -> (r, v) ∉ writes.
Proof.
  induction writes as [|[r' v'] writes IH]; simpl.
  - intros _ Hin. by apply elem_of_nil in Hin.
  - destruct (last_write r writes) as [w|]; [done|].
    case_bool_decide as E; [done|]. intros _ [[= -> ->]|Hin]%elem_of_cons; [done|].
    by apply IH.
Qed.

Lemma register_forEach_names module keys :
  forall actions app actions' app',
  register_forEach module (name module) keys actions app = (Ok actions', app') ->
  fn_actionName app' =
  foldl (fun m w => <[w.1 := w.2]> m) (fn_actionName app)
    (actionName_writes module (store_state app) keys).
Proof.
  induction keys as [|k keys IH]; intros actions app actions' app' E.
  - by injection E as <- <-.
  - simpl in E.
    destruct (register_key module (name module) k actions app)
      as [[actions1|e] app1] eqn:E1; [|discriminate].
    destruct (register_key_inv _ _ _ _ _ _ _ E1)
      as (method & Hget & _ & _ & Ht & _ & _ & _ & Hn).
    rewrite (IH _ _ _ _ E), Ht, Hn.
    unfold actionName_writes, key_method. simpl. by rewrite Hget.
Qed.

Lemma register_names module app proxy app' :
  register module app = (Ok proxy, app') ->
  fn_actionName app' =
  foldl (fun m w => <[w.1 := w.2]> m) (fn_actionName app)
    (actionName_writes module (store_state app')
       (List.filter (is_key module (store_state app')) (map fst (proto module)))).
Proof.
  intros E.
  destruct (register_Ok_inv _ _ _ _ E)
    as (keys & actions & Hk & -> & Ht & _ & _ & _ & _ & _ & Ef).
  rewrite Ht. pose proof (getKeys_Ok _ _ _ Hk) as Hkeys. rewrite <- Hkeys.
  rewrite (register_forEach_names _ _ _ _ _ _ Ef).
  by rewrite (proj1 (proj2 (seeded_frame module app))).
Qed.

Lemma register_dom module app proxy app' :
  register module app = (Ok proxy, app') ->
  forall k, is_Some (proxy_actions proxy !! k) <->
            k ∈ List.filter (is_key module (store_state app')) (map fst (proto module)).
Proof.
  intros E k.
  destruct (register_Ok_inv _ _ _ _ E)
    as (keys & actions & Hk & -> & Ht & _ & _ & Ha & _ & _ & _).
  clear E. simpl. rewrite Ha, Ht.
  pose proof (getKeys_Ok _ _ _ Hk) as <-.
  case_decide; [by split|]. split; [by intros [? [=]]|done].
Qed.

(** X5. After [register], a method that the module holds under one key only
    carries, as its [actionName], the qualified action type of that key; and
    the [actionName] of a function that the module holds under no key is as
    it was. *)
Theorem register_attaches_actionName
    (module : AppModule) (app app' : App) (proxy : ModuleProxy) :
  register module app = (Ok proxy, app') ->
  (forall k method,
     is_Some (proxy_actions proxy !! k) ->
     key_method module (store_state app') k = Some method ->
     (forall k' method',
        is_Some (proxy_actions proxy !! k') ->
        key_method module (store_state app') k' = Some method' ->
        fn_ref method' = fn_ref method -> k' = k) ->
     fn_actionName app' !! fn_ref method = Some (qualified (name module) k))
  /\ (forall r,
        (forall k method,
           is_Some (proxy_actions proxy !! k) ->
           key_method module (store_state app') k = Some method ->
           fn_ref method <> r) ->
        fn_actionName app' !! r = fn_actionName app !! r).
Proof.
  intros E. rewrite (register_names _ _ _ _ E).
  set (tree := store_state app').
  set (keys := List.filter (is_key module tree) (map fst (proto module))).
  pose proof (register_dom _ _ _ _ E) as Hdom. fold tree in Hdom. fold keys in Hdom.
  assert (forall r v, (r, v) ∈ actionName_writes module tree keys <->
            exists k method, k ∈ keys /\ key_method module tree k = Some method /\
                             r = fn_ref method /\ v = qualified (name module) k) as Hw.
  { intros r v. unfold actionName_writes. rewrite list_elem_of_omap. split.
    - intros (k & Hin & Hm). destruct (key_method module tree k) as [method|] eqn:Em;
        [|discriminate]. injection Hm as <- <-. by exists k, method.
    - intros (k & method & Hin & Em & -> & ->). exists k. by rewrite Em. }
  split.
  - intros k method Hk Hm Huniq. rewrite foldl_insert_lookup.
    destruct (last_write (fn_ref method) (actionName_writes module tree keys)) as [v|] eqn:El.
    + apply last_write_elem_of, Hw in El as (k' & method' & Hin & Em & Er & ->).
      rewrite (Huniq k' method'); [done| |done|done]. by apply Hdom.
    + eapply last_write_None in El. destruct El. apply Hw.
      exists k, method. split; [by apply Hdom|done].
  - intros r Hr. rewrite foldl_insert_lookup.
    destruct (last_write r (actionName_writes module tree keys)) as [v|] eqn:El; [|done].
    apply last_write_elem_of, Hw in El as (k' & method' & Hin & Em & -> & _).
    destruct (Hr k' method'); [by apply Hdom|done|done].
Qed.

(** X6. Registering a module again is harmless once its slice is there.
    When [register] has returned and the module's slice is truthy in the
    process it left, registering the same module on that process returns
    again, with a proxy for the same module that has creators under the same
    keys, building the same actions; nothing is dispatched, the State Tree,
    the logger and the [actionName] of every function are as they were, and
    the handler table has the same keys, each with a handler that runs, for
    every payload, the saga that the handler before it ran. *)
Theorem register_again_changes_nothing
    (module : AppModule) (app app1 : App) (proxy : ModuleProxy) :
  register module app = (Ok proxy, app1) ->
  truthy (slice (name module) app1) = true ->
  exists proxy2 app2,
    register module app1 = (Ok proxy2, app2)
    /\ proxy_module proxy2 = proxy_module proxy
    /\ (forall k, is_Some (proxy_actions proxy2 !! k) <-> is_Some (proxy_actions proxy !! k))
    /\ (forall k creator creator2 args,
          proxy_actions proxy !! k = Some creator ->
          proxy_actions proxy2 !! k = Some creator2 ->
          creator2 args = creator args)
    /\ store_state app2 = store_state app1
    /\ store_dispatched app2 = store_dispatched app1
    /\ logger app2 = logger app1
    /\ (forall r, fn_actionName app2 !! r = fn_actionName app1 !! r)
    /\ (forall q, is_Some (actionHandlers app2 !! q) <-> is_Some (actionHandlers app1 !! q))
    /\ (forall q handler handler2 payload,
          actionHandlers app1 !! q = Some handler ->
          actionHandlers app2 !! q = Some handler2 ->
          handler2 payload = handler payload).
Proof.
  intros E Htruthy.
  pose proof (seeded_truthy module app1 Htruthy) as Hseed.
  pose proof (register_names _ _ _ _ E) as Hn1.
  destruct (register_Ok_inv _ _ _ _ E)
    as (keys & actions & Hk & -> & Ht & _ & _ & Ha & Hb & _ & _).
  assert (registrable module (store_state (seeded module app1)) = true) as Hreg.
  { rewrite Hseed, Ht. apply register_registrable. eexists _, _. exact E. }
  apply register_registrable in Hreg as (proxy2 & app2 & E2).
  pose proof (register_names _ _ _ _ E2) as Hn2.
  destruct (register_Ok_inv _ _ _ _ E2)
    as (keys2 & actions2 & Hk2 & -> & Ht2 & Hd2 & Hl2 & Ha2 & Hb2 & Ho2 & _).
  rewrite Hseed in *.
  assert (keys2 = keys) as -> by (rewrite Ht in Hk2; congruence).
  assert (forall q, actionHandlers app2 !! q = actionHandlers app1 !! q) as Hh.
  { intros q.
    destruct (decide (Exists (fun k => q = qualified (name module) k) keys)) as [Hex|Hnex].
    - apply Exists_exists in Hex as (k & Hin & ->).
      rewrite Hb2, Hb by done. by rewrite Ht2.
    - apply Ho2. intros k Hin ->. apply Hnex, Exists_exists. by exists k. }
  exists {| proxy_module := module; proxy_actions := actions2 |}, app2.
  split; [done|]. split; [done|]. simpl. split; [intros k; by rewrite Ha, Ha2|].
  split.
  { intros k creator creator2 args Hc Hc2. rewrite Ha in Hc. rewrite Ha2 in Hc2.
    case_decide; [|discriminate]. by injection Hc as <-; injection Hc2 as <-. }
  split; [done|]. split; [done|]. split; [done|]. split.
  { intros r. rewrite Hn2, Ht2, Hn1.
    rewrite !foldl_insert_lookup. by destruct (last_write r _). }
  split; [intros q; by rewrite Hh|].
  intros q handler handler2 payload H1 H2. rewrite Hh in H2.
  assert (Some handler2 = Some handler) as Heq
    by exact (eq_trans (eq_sym H2) H1).
  by injection Heq as <-.
Qed.

Lemma qualified_name_inj (N1 N2 k1 k2 : string) :
  has_slash N1 = false -> has_slash N2 = false ->
  qualified N1 k1 = qualified N2 k2 -> N1 = N2.
Proof.
  unfold qualified. revert N2.
  induction N1 as [|c1 N1 IH]; intros [|c2 N2] H1 H2 E; simpl in *.
  - done.
  - injection E as <- _. discriminate H2.
  - injection E as -> _. discriminate H1.
  - injection E as <- E. apply orb_false_iff in H1 as [_ H1].
    apply orb_false_iff in H2 as [_ H2]. f_equal. by apply IH.
Qed.

(** X7. When module names hold no ["/"], registering a module leaves the
    handlers of every other module name alone: the entry of
    ["<other>/<key>"] is after [register] what it was before, whether
    [register] returns or raises. *)
Theorem register_leaves_other_names
    (module : AppModule) (app : App) (other key : string) :
  has_slash (name module) = false ->
  has_slash other = false ->
  other <> name module ->
  actionHandlers (register module app).2 !! qualified other key =
  actionHandlers app !! qualified other key.
Proof.
  intros Hm Ho Hne.
  destruct (register module app) as [[proxy|e] app'] eqn:E; simpl.
  - destruct (register_Ok_inv _ _ _ _ E)
      as (keys & actions & _ & _ & _ & _ & _ & _ & _ & Hoth & _).
    apply Hoth. intros k _ Eq. by apply qualified_name_inj in Eq.
  - destruct (register_throws_inv _ _ _ _ E)
      as [[_ ->]|(_ & keys & before & k & after & a1 & _ & _ & _ & Ef)].
    + by rewrite (proj1 (seeded_frame module app)).
    + destruct (register_forEach_inv _ _ _ _ _ _ _ Ef) as (_ & _ & _ & _ & _ & Hoth & _).
      rewrite Hoth; [by rewrite (proj1 (seeded_frame module app))|].
      intros b _ Eq. by apply qualified_name_inj in Eq.
Qed.

Lemma created_actions_creator module app proxy app' m creator :
  register module app = (Ok proxy, app') ->
  proxy_actions proxy !! m = Some creator ->
  creator = fun payload => ModuleAction (qualified (name module) m) payload.
Proof.
  intros E Hm.
  destruct (register_Ok_inv _ _ _ _ E)
    as (keys & actions & _ & -> & _ & _ & _ & Ha & _ & _ & _).
  clear E. simpl in Hm. rewrite Ha in Hm.
  case_decide; [|discriminate]. by injection Hm as <-.
Qed.

(** X8. Every action that a returned proxy can create is handled: the type
    of the action that a creator [actions.m] builds is a key of the handler
    table, bound to the module's method [m]. *)
Theorem created_actions_are_handled
    (module : AppModule) (app app' : App) (proxy : ModuleProxy)
    (m : string) (creator : ActionCreator) :
  register module app = (Ok proxy, app') ->
  proxy_actions proxy !! m = Some creator ->
  forall args, exists type handler,
    creator args = ModuleAction type args /\
    actionHandlers app' !! type = Some handler /\
    bound_method module (store_state app') m = Some handler.
Proof.
  intros E Hm args.
  pose proof (proj1 (register_dom _ _ _ _ E m) (mk_is_Some _ _ Hm)) as Hkey.
  apply list_elem_of_In, filter_In in Hkey as [_ Hkey].
  destruct (is_key_bound _ _ _ Hkey) as (method & Hget & _).
  destruct (register_Ok_inv _ _ _ _ E)
    as (keys & actions & Hk & -> & Ht & _ & _ & Ha & Hb & _ & _).
  clear E. simpl in Hm. rewrite Ha in Hm.
  case_decide as Hin; [|discriminate]. injection Hm as <-.
  exists (qualified (name module) m), (fn_body method (self module)).
  split; [done|]. rewrite (Hb m Hin). unfold bound_method. by rewrite Hget.
Qed.

(** X9. The function that [useModuleAction] returns for a creator of a
    registered module dispatches one action, of the creator's type, whose
    payload is the bound arguments followed by the call's arguments; so
    binding more arguments first or passing them at the call is the same. *)
Theorem useModuleAction_dispatches
    (module : AppModule) (app app' : App) (proxy : ModuleProxy)
    (m : string) (creator : ActionCreator) :
  register module app = (Ok proxy, app') ->
  proxy_actions proxy !! m = Some creator ->
  forall (deps args : list JsVal) (w : App),
    store_dispatched (useModuleAction creator deps args w) =
      store_dispatched w ++ [ModuleAction (qualified (name module) m) (deps ++ args)]
    /\ actionHandlers (useModuleAction creator deps args w) = actionHandlers w
    /\ forall more,
         useModuleAction creator (deps ++ more) args w =
         useModuleAction creator deps (more ++ args) w.
Proof.
  intros E Hm deps args w.
  rewrite (created_actions_creator _ _ _ _ _ _ E Hm).
  unfold useModuleAction. simpl. split; [done|]. split; [done|].
  intros more. by rewrite <- app_assoc.
Qed.

(** X23. When [register] seeds. Once [register] is over, whether it
    returned or raised: if the State Tree holds under the module's name a
    truthy value of its own, or holds none but the name is one that every
    plain object inherits (["toString"], ["constructor"], ...), nothing was
    dispatched and the State Tree is as it was; if it holds a falsy value
    of its own, or holds none and the name is not an inherited one, exactly
    one action was dispatched, the seeding action with [initialState], and
    the State Tree is what the reducer made of it. *)
Theorem register_seeds_iff_falsy (module : AppModule) (app : App) :
  let init := setStateAction (name module) (initialState module)
                ("@@" +:+ name module +:+ "/@@init") in
  let kept :=
    store_dispatched (register module app).2 = store_dispatched app /\
    store_state (register module app).2 = store_state app in
  let seeded_once :=
    store_dispatched (register module app).2 = store_dispatched app ++ [init] /\
    store_state (register module app).2 = reducer (store_state app) init in
  (forall v, store_state app !! name module = Some v -> truthy v = true -> kept)
  /\ (store_state app !! name module = None ->
      name module ∈ Object_prototype_names -> kept)
  /\ (forall v, store_state app !! name module = Some v -> truthy v = false ->
        seeded_once)
  /\ (store_state app !! name module = None ->
      name module ∉ Object_prototype_names -> seeded_once).
Proof.
  intros init kept seeded_once. subst kept seeded_once.
  destruct (register_store module app) as [-> ->].
  unfold seeded, slice, plain_object_get.
  split; [|split; [|split]].
  - intros v -> ->. done.
  - intros -> Hin. by rewrite bool_decide_eq_true_2.
  - intros v -> ->. done.
  - intros -> Hnin. by rewrite bool_decide_eq_false_2.
Qed.

End RegistrarMore.

Section RegistrarMoreExamples.
#[local] Existing Instance Sample.platform.

(** The hypothesis on names in X7 is needed: with a ["/"] in a name, two
    modules can meet on one handler-table key. *)
Lemma qualified_collision : qualified "a" "b/c" = qualified "a/b" "c".
Proof. reflexivity. Qed.

Lemma getKeys_keys_witness :
  ["load"; "onEnter"] `sublist_of` map fst (proto Sample.user1)
  /\ (NoDup (map fst (proto Sample.user1)) -> NoDup ["load"; "onEnter"])
  /\ ("constructor" ∉ ["load"; "onEnter"]) /\ ("name" ∉ ["load"; "onEnter"])
  /\ ("initialState" ∉ ["load"; "onEnter"]).
Proof.
  apply (getKeys_keys Sample.user1 ∅ ["load"; "onEnter"]).
  vm_compute. reflexivity.
Defined.

(** [archive] is registered: [load] is, the frozen [save] raises, and
    [purge] is never reached. *)
Lemma register_raises_witness :
  exists app',
    register MoreSamples.archive Sample.app0 = (Throws TypeError, app')
    /\ store_state app' = store_state (seeded MoreSamples.archive Sample.app0)
    /\ store_dispatched app' = store_dispatched (seeded MoreSamples.archive Sample.app0)
    /\ (forall b, b ∈ ["load"] ->
          is_Some (bound_method MoreSamples.archive (store_state app') b) /\
          actionHandlers app' !! qualified "archive" b =
            bound_method MoreSamples.archive (store_state app') b)
    /\ (forall q, (forall b, b ∈ ["load"] -> q <> qualified "archive" b) ->
          actionHandlers app' !! q = actionHandlers Sample.app0 !! q).
Proof.
  destruct (proj1 (proj2 (register_raises MoreSamples.archive Sample.app0)) eq_refl)
    as (keys & Hk & _ & Hmid).
  vm_compute in Hk. injection Hk as <-.
  exact (Hmid ["load"] "save" ["purge"] eq_refl eq_refl eq_refl).
Defined.

Lemma register_attaches_actionName_witness :
  fn_actionName Sample.app1 !! fn_ref Sample.load1 = Some (qualified "user" "load").
Proof.
  refine (proj1 (register_attaches_actionName Sample.user1 Sample.app0 Sample.app1 _ _)
            "load" Sample.load1 _ _ _).
  - vm_compute. reflexivity.
  - eexists. vm_compute. reflexivity.
  - vm_compute. reflexivity.
  - intros k' method' Hin Hm Hr.
    apply (proj1 (@register_dom Sample.platform Sample.user1 Sample.app0 _ Sample.app1
                    eq_refl k')) in Hin.
    vm_compute in Hin.
    apply elem_of_cons in Hin as [->|Hin]; [done|].
    apply elem_of_cons in Hin as [->|Hin]; [|by apply elem_of_nil in Hin].
    vm_compute in Hm. injection Hm as <-. discriminate Hr.
Defined.

(** [user1] registered a second time. *)
Lemma register_again_changes_nothing_witness :
  exists proxy2 app2,
    register Sample.user1 Sample.app1 = (Ok proxy2, app2)
    /\ store_dispatched app2 = store_dispatched Sample.app1
    /\ (forall q, is_Some (actionHandlers app2 !! q) <->
                  is_Some (actionHandlers Sample.app1 !! q)).
Proof.
  edestruct (register_again_changes_nothing Sample.user1 Sample.app0 Sample.app1)
    as (proxy2 & app2 & E & _ & _ & _ & _ & Hd & _ & _ & Hq & _).
  - vm_compute. reflexivity.
  - vm_compute. reflexivity.
  - exists proxy2, app2. split; [exact E|]. split; [exact Hd|exact Hq].
Defined.

(** Registering [cart] leaves ["user/load"] to [user1]. *)
Lemma register_leaves_other_names_witness :
  actionHandlers (register MoreSamples.cart Sample.app1).2 !! qualified "user" "load" =
  actionHandlers Sample.app1 !! qualified "user" "load".
Proof.
  apply (register_leaves_other_names MoreSamples.cart Sample.app1 "user" "load").
  - reflexivity.
  - reflexivity.
  - discriminate.
Defined.

(** A module named ["toString"] is registered on an empty State Tree:
    no slice is seeded for it. *)
Lemma register_seeds_iff_falsy_witness :
  store_dispatched (register MoreSamples.printer Sample.app0).2 = [] /\
  store_state (register MoreSamples.printer Sample.app0).2 = ∅.
Proof.
  refine (proj1 (proj2 (register_seeds_iff_falsy MoreSamples.printer Sample.app0)) _ _).
  - reflexivity.
  - vm_compute. repeat constructor.
Defined.

Lemma created_actions_are_handled_witness :
  exists creator type handler,
    creator [VNum 1] = ModuleAction type [VNum 1] /\
    actionHandlers Sample.app1 !! type = Some handler /\
    bound_method Sample.user1 (store_state Sample.app1) "load" = Some handler.
Proof.
  eexists.
  eapply (created_actions_are_handled Sample.user1 Sample.app0 Sample.app1 _ "load").
  - vm_compute. reflexivity.
  - vm_compute. reflexivity.
Defined.

(** [useModuleAction(actions.load, 100)("x")] *)
Lemma useModuleAction_dispatches_witness :
  store_dispatched
    (useModuleAction (fun payload => ModuleAction "user/load" payload)
       [VNum 100] [VStr "x"] Sample.app1) =
  store_dispatched Sample.app1 ++ [ModuleAction "user/load" [VNum 100; VStr "x"]].
Proof.
  refine (proj1 (useModuleAction_dispatches Sample.user1 Sample.app0 Sample.app1 _ "load"
                   (fun payload => ModuleAction "user/load" payload)
                   _ _ [VNum 100] [VStr "x"] Sample.app1)).
  - vm_compute. reflexivity.
  - vm_compute. reflexivity.
Defined.

End RegistrarMoreExamples.

(** ** More on [Module.setState] *)

Section SetStateMore.
Context `{Platform}.

(** X10. Whatever it is given, [setState] leaves the handler table, the
    action names and the logger alone, and either leaves the process as it
    is or dispatches one action: a state replacement for the module's own
    name, with a value that is not the current slice or is [NaN]. When it
    raises, the process is as it was. *)
Theorem setState_frame (this : AppModule) (stateOrUpdater : StateOrUpdater) (app : App) :
  let app' := (setState this stateOrUpdater app).2 in
  actionHandlers app' = actionHandlers app
  /\ fn_actionName app' = fn_actionName app
  /\ logger app' = logger app
  /\ (app' = app \/
      exists newState description,
        (newState <> state this app \/ newState = VNaN) /\
        app' = dispatch (setStateAction (name this) newState description) app)
  /\ (forall e, (setState this stateOrUpdater app).1 = Throws e -> app' = app).
Proof.
  assert (forall updater,
            let app' := (setState_function this updater app).2 in
            actionHandlers app' = actionHandlers app
            /\ fn_actionName app' = fn_actionName app
            /\ logger app' = logger app
            /\ (app' = app \/
                exists newState description,
                  (newState <> state this app \/ newState = VNaN) /\
                  app' = dispatch (setStateAction (name this) newState description) app)
            /\ (forall e, (setState_function this updater app).1 = Throws e -> app' = app))
    as Hfun.
  { intros updater. unfold setState_function.
    destruct (produce _ _ _) as [[newState patches]|e]; [|by repeat split; auto].
    destruct (strict_equal newState (state this app)) eqn:Hse; simpl.
    - repeat split; auto.
    - apply strict_equal_false in Hse.
      repeat split; try done. right. by eexists _, _. }
  destruct stateOrUpdater; apply Hfun.
Qed.

(** X22. When [setState] dispatches. Whatever the module and the updater,
    with [newState] the value that [produce] returns for the module's
    current slice: when [newState] is the slice itself and is not [NaN],
    [setState] dispatches nothing and leaves the process as it was; when it
    is another value, or is [NaN], [setState] dispatches one
    state-replacement action, for the module's name and [newState]. So a
    replacement action is dispatched exactly when the two differ or the
    value is [NaN]. *)
Theorem setState_dispatches_iff_strictly_unequal
    (this : AppModule) (updater : Draft -> Draft) (app : App)
    (newState : JsVal) (patches : option (list (list string))) :
  produce (state this app) updater development = Ok (newState, patches) ->
  (newState = state this app -> newState <> VNaN ->
     setState this (UpdaterFn updater) app = (Ok tt, app))
  /\ (newState <> state this app \/ newState = VNaN ->
       exists description,
         setState this (UpdaterFn updater) app =
           (Ok tt, dispatch (setStateAction (name this) newState description) app))
  /\ (store_dispatched (setState this (UpdaterFn updater) app).2 <> store_dispatched app
       <-> (newState <> state this app \/ newState = VNaN)).
Proof.
  intros E. unfold setState, setState_function.
  change (fun draftState => updater draftState) with updater. rewrite E.
  destruct (strict_equal newState (state this app)) eqn:Hse; simpl.
  - apply strict_equal_spec in Hse as [Heq Hn].
    split; [done|]. split; [by intros [?| ?]|].
    split; [done|]. by intros [?| ?].
  - apply strict_equal_false in Hse.
    split; [intros Heq Hn; by destruct Hse|]. split; [intros _; by eexists|].
    split; [done|]. intros _ E'.
    apply (f_equal length) in E'. rewrite length_app in E'. simpl in E'. lia.
Qed.

End SetStateMore.

Section SetStateMoreExamples.
#[local] Existing Instance Sample.platform.

(** An updater that leaves its draft alone, on the counter at [5]: nothing
    is dispatched. *)
Lemma setState_dispatches_iff_strictly_unequal_witness :
  setState Sample.counter (UpdaterFn (fun draft => draft)) Sample.app_counter5 =
    (Ok tt, Sample.app_counter5).
Proof.
  refine (proj1 (setState_dispatches_iff_strictly_unequal
                   Sample.counter (fun draft => draft) Sample.app_counter5
                   (VNum 5) (Some []) _) _ _).
  - vm_compute. reflexivity.
  - vm_compute. reflexivity.
  - discriminate.
Defined.

End SetStateMoreExamples.

(** ** More on the loggers *)

Section LoggerImplMore.
Context `{Platform}.

Lemma LoggerImpl_step_queue s op k :
  k <= length (LoggerImpl.objects s) ->
  LoggerImpl.logQueue s = seq (length (LoggerImpl.objects s) - k) k ->
  let k' := LoggerImpl_queued_after k [op] in
  let s' := LoggerImpl.step s op in
  k' <= length (LoggerImpl.objects s') /\
  LoggerImpl.logQueue s' = seq (length (LoggerImpl.objects s') - k') k'.
Proof.
  intros Hk Hq. unfold LoggerImpl_queued_after.
  destruct op as [context|c now| |[r] now]; cbn [foldl LoggerImpl.step].
  - done.
  - destruct (LoggerImpl_call_appended c now s) as (ev & (_ & -> & -> & _) & _).
    rewrite length_app. cbn [length]. split; [lia|].
    replace (length (LoggerImpl.objects s) + 1 - S k)
      with (length (LoggerImpl.objects s) - k) by lia.
    rewrite Hq, seq_S. do 2 f_equal. lia.
  - split; [lia|done].
  - simpl. by rewrite length_alter.
Qed.

Lemma LoggerImpl_run_queue ops :
  forall s k,
  k <= length (LoggerImpl.objects s) ->
  LoggerImpl.logQueue s = seq (length (LoggerImpl.objects s) - k) k ->
  let k' := LoggerImpl_queued_after k ops in
  let s' := LoggerImpl.run ops s in
  k' <= length (LoggerImpl.objects s') /\
  LoggerImpl.logQueue s' = seq (length (LoggerImpl.objects s') - k') k'.
Proof.
  induction ops as [|op ops IH]; intros s k Hk Hq; [done|].
  destruct (LoggerImpl_step_queue s op k Hk Hq) as [Hk' Hq'].
  exact (IH _ _ Hk' Hq').
Qed.

(** X11. In every state that a program reaches from [new LoggerImpl()],
    [collect()] lists exactly the events created since the last [empty()]
    (all of them when there was none), oldest first and each once: they are
    the [k] most recent event objects, where [k] counts the logging calls
    since then. Calls of closures and [addContext] do not change the list. *)
Theorem LoggerImpl_collect_since_empty (ops : list LoggerImpl.Op) :
  let s := LoggerImpl.run ops LoggerImpl.new in
  let k := LoggerImpl_queued_after 0 ops in
  k <= length (LoggerImpl.objects s) /\
  LoggerImpl.collect s = seq (length (LoggerImpl.objects s) - k) k /\
  NoDup (LoggerImpl.collect s) /\
  forall ref, ref ∈ LoggerImpl.collect s -> is_Some (LoggerImpl.objects s !! ref).
Proof.
  destruct (LoggerImpl_run_queue ops LoggerImpl.new 0) as [Hk Hq]; [simpl; lia|done|].
  simpl. unfold LoggerImpl.collect. split; [done|]. split; [done|].
  rewrite Hq. split; [apply NoDup_seq|].
  intros ref Hin. apply elem_of_seq in Hin. apply lookup_lt_is_Some. lia.
Qed.

Lemma LoggerImpl_stamp_stamped now last event :
  LoggerImpl.stamp now (LoggerImpl_stamped last event) = LoggerImpl.stamp now event.
Proof. by destruct last. Qed.

Lemma LoggerImpl_run_last_invocation ops ref event :
  forall s acc,
  LoggerImpl.objects s !! ref = Some (LoggerImpl_stamped acc event) ->
  LoggerImpl.objects (LoggerImpl.run ops s) !! ref =
    Some (LoggerImpl_stamped (LoggerImpl_last_invocation ref acc ops) event).
Proof.
  induction ops as [|op ops IH]; intros s acc E; [done|].
  simpl. apply IH.
  destruct (LoggerImpl.invokes ref op) eqn:Hop.
  - destruct op as [| | |[r] now]; try discriminate Hop.
    simpl in Hop. apply bool_decide_eq_true in Hop as ->.
    simpl. rewrite bool_decide_eq_true_2 by done.
    rewrite list_lookup_alter_eq, E. simpl. by rewrite LoggerImpl_stamp_stamped.
  - rewrite (LoggerImpl_step_keeps s op ref _ Hop E).
    destruct op as [| | |[r] now]; try done.
    simpl in Hop. by rewrite Hop.
Qed.

(** X12. Whatever a program does with [LoggerImpl] after an event was
    created, the event stays where it is and has every field it was created
    with but, possibly, [elapsedTime]: that one is as before as long as the
    event's closure was not called, and otherwise the clock reading of the
    closure's last call minus the event's date. *)
Theorem LoggerImpl_event_after
    (ops : list LoggerImpl.Op) (s : LoggerImpl.State) (ref : nat) (event : LoggerImpl.Log) :
  LoggerImpl.objects s !! ref = Some event ->
  exists event',
    LoggerImpl.objects (LoggerImpl.run ops s) !! ref = Some event'
    /\ LoggerImpl_same_but_elapsedTime event event'
    /\ LoggerImpl.elapsedTime event' =
         match LoggerImpl_last_invocation ref None ops with
         | Some now => (now - LoggerImpl.date event)%Z
         | None => LoggerImpl.elapsedTime event
         end.
Proof.
  intros E. rewrite (LoggerImpl_run_last_invocation ops ref event s None E).
  eexists. split; [reflexivity|].
  destruct (LoggerImpl_last_invocation ref None ops) as [now|]; simpl.
  - destruct (LoggerImpl_set_elapsedTime_fields
                (now - LoggerImpl.date event) event) as [Het Hsame].
    split; [exact Hsame|exact Het].
  - by repeat split.
Qed.




(** X15. For an [APIException], [LoggerImpl.exception] records the
    server's error code under [info.errorCode] exactly when the exception
    holds one that is not the empty string, and likewise the error id under
    [info.errorId]; a missing or empty one leaves no entry. *)
Theorem LoggerImpl_exception_optional_fields
    (message : string) (statusCode : Z) (requestURL : string)
    (errorId errorCode : option string)
    (tree : gmap string JsVal) (now : Z) (s : LoggerImpl.State) :
  let e := APIException message statusCode requestURL errorId errorCode in
  exists event,
    LoggerImpl.appended s (LoggerImpl.exception e tree now s).2
      (LoggerImpl.exception e tree now s).1 event
    /\ LoggerImpl.info event !! "errorCode" =
         match errorCode with
         | Some code => if String.eqb code "" then None else Some code
         | None => None
         end
    /\ LoggerImpl.info event !! "errorId" =
         match errorId with
         | Some i => if String.eqb i "" then None else Some i
         | None => None
         end.
Proof.
  intros e. subst e. unfold LoggerImpl.exception, message_of. cbv beta iota zeta.
  eexists. split; [apply LoggerImpl_appendLog_appended|]. simpl.
  destruct errorId as [i|], errorCode as [code|]; simpl;
    try destruct (String.eqb i ""); try destruct (String.eqb code "");
    simpl; by simplify_map_eq.
Qed.

End LoggerImplMore.

Section EventLoggerMore.
Context `{Platform}.

Lemma number_toString_16_inj (a b : Z) :
  number_toString_16 a = number_toString_16 b -> a = b.
Proof.
  unfold number_toString_16. intros E.
  assert (forall z, Z.to_hex_int z <> Hexadecimal.Pos Hexadecimal.Nil /\
                    Z.to_hex_int z <> Hexadecimal.Neg Hexadecimal.Nil) as Hnz.
  { intros z. split; intros Hz; pose proof (f_equal Z.of_hex_int Hz) as Hz';
      rewrite HexadecimalZ.of_to in Hz'; simpl in Hz'; subst z; discriminate Hz. }
  apply HexadecimalZ.to_int_inj.
  destruct (Hnz a) as [Ha1 Ha2], (Hnz b) as [Hb1 Hb2].
  pose proof (HexadecimalString.NilZero.isi _ Ha1 Ha2) as Ia.
  pose proof (HexadecimalString.NilZero.isi _ Hb1 Hb2) as Ib.
  rewrite E in Ia. congruence.
Qed.

Lemma EventLogger_log_event arg info tree now s :
  exists event,
    EventLogger.appended s (EventLogger.log arg info tree now s).2
      (EventLogger.log arg info tree now s).1 event
    /\ EventLogger.uuidCounter (EventLogger.log arg info tree now s).2 =
         (EventLogger.uuidCounter s + 1)%Z
    /\ EventLogger.id event = number_toString_16 (EventLogger.uuidCounter s)
    /\ EventLogger.context event = resolve <$> EventLogger.environmentContext s
    /\ (EventLogger.result event = OK ->
          is_Some (EventLogger.action event) /\ EventLogger.errorCode event = None)
    /\ (EventLogger.result event <> OK ->
          EventLogger.action event = None /\ is_Some (EventLogger.errorCode event)).
Proof.
  destruct (EventLogger_log_appendLog arg info tree now s) as (a & r & i & ->).
  eexists. split; [apply EventLogger_appendLog_appended|]. simpl.
  split; [done|]. split; [done|]. split; [done|].
  destruct r; split; try done; intros _; by split.
Qed.

Lemma EventLogger_run_invariant (now0 : Z) (ops : list EventLogger.Op) :
  forall s,
  (EventLogger.uuidCounter s = now0 + Z.of_nat (length (EventLogger.objects s)))%Z ->
  EventLogger.logQueue s = seq 0 (length (EventLogger.objects s)) ->
  (forall i event, EventLogger.objects s !! i = Some event ->
     EventLogger.id event = number_toString_16 (now0 + Z.of_nat i)
     /\ (EventLogger.result event = OK ->
           is_Some (EventLogger.action event) /\ EventLogger.errorCode event = None)
     /\ (EventLogger.result event <> OK ->
           EventLogger.action event = None /\ is_Some (EventLogger.errorCode event))) ->
  let s' := EventLogger.run ops s in
  (EventLogger.uuidCounter s' = now0 + Z.of_nat (length (EventLogger.objects s')))%Z
  /\ EventLogger.logQueue s' = seq 0 (length (EventLogger.objects s'))
  /\ length (EventLogger.objects s') =
       length (EventLogger.objects s) + EventLogger_logged ops
  /\ (forall i event, EventLogger.objects s' !! i = Some event ->
        EventLogger.id event = number_toString_16 (now0 + Z.of_nat i)
        /\ (EventLogger.result event = OK ->
              is_Some (EventLogger.action event) /\ EventLogger.errorCode event = None)
        /\ (EventLogger.result event <> OK ->
              EventLogger.action event = None /\ is_Some (EventLogger.errorCode event))).
Proof.
  induction ops as [|op ops IH]; intros s Hc Hq Hev.
  - simpl. unfold EventLogger_logged. simpl.
    split; [done|]. split; [done|]. split; [lia|]. exact Hev.
  - cbn [EventLogger.run foldl]. fold (EventLogger.run ops (EventLogger.step s op)).
    destruct op as [context|arg info tree now|[r] now].
    + apply (IH (EventLogger.step s (EventLogger.OpSetContext context))); done.
    + destruct (EventLogger_log_event arg info tree now s)
        as (ev & (_ & Hobj & Hqueue & _) & Hcount & Hid & _ & Hok & Hnok).
      destruct (IH (EventLogger.step s (EventLogger.OpLog arg info tree now)))
        as (Hc' & Hq' & Hl' & Hev').
      * cbn [EventLogger.step]. rewrite Hcount, Hobj, length_app, Hc. simpl. lia.
      * cbn [EventLogger.step]. rewrite Hqueue, Hobj, length_app, Hq. simpl.
        rewrite Nat.add_1_r, seq_S. done.
      * cbn [EventLogger.step]. rewrite Hobj. intros i event Hi.
        apply lookup_app_Some in Hi as [Hi|[Hge Hi]]; [by apply Hev|].
        apply list_lookup_singleton_Some in Hi as [Hi ->].
        rewrite Hid, Hc. split; [f_equal; lia|done].
      * split; [done|]. split; [done|]. split; [|done].
        rewrite Hl'. cbn [EventLogger.step]. rewrite Hobj, length_app.
        unfold EventLogger_logged. simpl. lia.
    + destruct (IH (EventLogger.step s (EventLogger.OpInvoke (StampElapsedTime r) now)))
        as (Hc' & Hq' & Hl' & Hev').
      * simpl. by rewrite length_alter.
      * simpl. by rewrite length_alter.
      * simpl. intros i event Hi. rewrite list_lookup_alter in Hi.
        case_decide as Hri; [subst i|by apply Hev].
        apply fmap_Some in Hi as (ev & Ei & ->). simpl. by apply Hev.
      * split; [done|]. split; [done|]. split; [|done].
        rewrite Hl'. simpl. by rewrite length_alter.
Qed.

Lemma EventLogger_new_invariant (now0 : Z) (ops : list EventLogger.Op) :
  let s := EventLogger.run ops (EventLogger.new now0) in
  EventLogger.logQueue s = seq 0 (length (EventLogger.objects s))
  /\ length (EventLogger.objects s) = EventLogger_logged ops
  /\ (forall i event, EventLogger.objects s !! i = Some event ->
        EventLogger.id event = number_toString_16 (now0 + Z.of_nat i)
        /\ (EventLogger.result event = OK ->
              is_Some (EventLogger.action event) /\ EventLogger.errorCode event = None)
        /\ (EventLogger.result event <> OK ->
              EventLogger.action event = None /\ is_Some (EventLogger.errorCode event))).
Proof.
  destruct (EventLogger_run_invariant now0 ops (EventLogger.new now0))
    as (_ & Hq & Hl & Hev).
  - simpl. lia.
  - done.
  - intros i event Hi. simpl in Hi. by rewrite lookup_nil in Hi.
  - done.
Qed.

(** X16. [EventLogger] has no way to take events out of its queue: in every
    state that a program reaches from [new EventLogger()], the queue lists
    every event object created so far, in the order of creation and each
    once, and there are as many as there were calls of [log]. *)
Theorem EventLogger_queue_keeps_everything (now0 : Z) (ops : list EventLogger.Op) :
  let s := EventLogger.run ops (EventLogger.new now0) in
  EventLogger.logQueue s = seq 0 (length (EventLogger.objects s))
  /\ length (EventLogger.logQueue s) = EventLogger_logged ops.
Proof.
  destruct (EventLogger_new_invariant now0 ops) as (Hq & Hl & _).
  simpl. split; [done|]. by rewrite Hq, length_seq.
Qed.

(** X17. The ids that [getUUID] gives are the successive values of a
    counter that starts at the clock reading of the logger's creation,
    written in base 16: in every state reached from [new EventLogger()],
    the [i]-th event created has the id of that reading plus [i], and no two
    events have the same id. *)
Theorem EventLogger_ids_unique
    (now0 : Z) (ops : list EventLogger.Op) (i j : nat)
    (event_i event_j : EventLogger.EventLog) :
  let s := EventLogger.run ops (EventLogger.new now0) in
  EventLogger.objects s !! i = Some event_i ->
  EventLogger.objects s !! j = Some event_j ->
  EventLogger.id event_i = number_toString_16 (now0 + Z.of_nat i)
  /\ (EventLogger.id event_i = EventLogger.id event_j -> i = j).
Proof.
  intros s Hi Hj.
  destruct (EventLogger_new_invariant now0 ops) as (_ & _ & Hev).
  destruct (Hev i event_i Hi) as [Ei _], (Hev j event_j Hj) as [Ej _].
  split; [done|]. rewrite Ei, Ej. intros E%number_toString_16_inj. lia.
Qed.

(** X18. Every event of [EventLogger] has either an [action] or an
    [errorCode], never both and never neither: in every state reached from
    [new EventLogger()], an event of result class [OK] has an [action] and
    no [errorCode], and an event of another result class has an [errorCode]
    and no [action]. *)
Theorem EventLogger_action_xor_errorCode
    (now0 : Z) (ops : list EventLogger.Op) (i : nat) (event : EventLogger.EventLog) :
  EventLogger.objects (EventLogger.run ops (EventLogger.new now0)) !! i = Some event ->
  (EventLogger.result event = OK ->
     is_Some (EventLogger.action event) /\ EventLogger.errorCode event = None)
  /\ (EventLogger.result event <> OK ->
       EventLogger.action event = None /\ is_Some (EventLogger.errorCode event)).
Proof.
  intros Hi. destruct (EventLogger_new_invariant now0 ops) as (_ & _ & Hev).
  by destruct (Hev i event Hi) as [_ ?].
Qed.


End EventLoggerMore.

Section LoggerMoreExamples.
#[local] Existing Instance Sample.platform.

(** [const done = logger.info("x")] at 1000, then [done()] at 1050, a
    warning, and [done()] again at 1080: the event reads 80. *)
Lemma LoggerImpl_event_after_witness :
  let s := (LoggerImpl.call (LoggerImpl.Info "x" None) 1000 LoggerImpl.new).2 in
  exists event',
    LoggerImpl.objects
      (LoggerImpl.run
         [LoggerImpl.OpInvoke (StampElapsedTime 0) 1050;
          LoggerImpl.OpCall (LoggerImpl.Warn "SLOW" None None) 1060;
          LoggerImpl.OpInvoke (StampElapsedTime 0) 1080] s) !! 0 = Some event'
    /\ LoggerImpl.action event' = Some "x"
    /\ LoggerImpl.elapsedTime event' = 80%Z.
Proof.
  intros s.
  destruct (LoggerImpl_event_after
              [LoggerImpl.OpInvoke (StampElapsedTime 0) 1050;
               LoggerImpl.OpCall (LoggerImpl.Warn "SLOW" None None) 1060;
               LoggerImpl.OpInvoke (StampElapsedTime 0) 1080] s 0 _ eq_refl)
    as (event' & E & (_ & _ & _ & _ & Ha & _) & Het).
  exists event'. split; [exact E|]. split; [exact Ha|exact Het].
Defined.

(** Two events logged at the same millisecond have different ids. *)
Lemma EventLogger_ids_unique_witness :
  let ops := [EventLogger.OpLog (inl "a") None ∅ 1000; EventLogger.OpLog (inl "b") None ∅ 1000] in
  exists e0 e1,
    EventLogger.objects (EventLogger.run ops (EventLogger.new 1000)) !! 0 = Some e0 /\
    EventLogger.objects (EventLogger.run ops (EventLogger.new 1000)) !! 1 = Some e1 /\
    EventLogger.id e0 = "3e8" /\
    (EventLogger.id e0 = EventLogger.id e1 -> 0 = 1).
Proof.
  intros ops. eexists _, _. split; [reflexivity|]. split; [reflexivity|].
  exact (EventLogger_ids_unique 1000 ops 0 1 _ _ eq_refl eq_refl).
Defined.

Lemma EventLogger_action_xor_errorCode_witness :
  let ops := [EventLogger.OpLog (inr Sample.notFound) None ∅ 1000] in
  exists event,
    EventLogger.objects (EventLogger.run ops (EventLogger.new 1000)) !! 0 = Some event /\
    (EventLogger.result event <> OK ->
       EventLogger.action event = None /\ is_Some (EventLogger.errorCode event)).
Proof.
  intros ops. eexists. split; [reflexivity|].
  exact (proj2 (EventLogger_action_xor_errorCode 1000 ops 0 _ eq_refl)).
Defined.

End LoggerMoreExamples.

(** ** Reading the slice back *)

Section StateReadBack.
Context `{Platform}.

(** X20. With a reducer that stores a replacement under its module's name:
    right after [setState(updater)], [this.state] is the value that
    [produce] returned, and the slice of every other module name is what it
    was. *)
Theorem state_after_setState
    (this : AppModule) (updater : Draft -> Draft) (app : App)
    (newState : JsVal) (patches : option (list (list string))) :
  reducer_replaces_slice ->
  produce (state this app) updater development = Ok (newState, patches) ->
  let app' := (setState this (UpdaterFn updater) app).2 in
  state this app' = newState
  /\ forall other, other <> name this -> slice other app' = slice other app.
Proof.
  intros Hred E. unfold setState, setState_function.
  change (fun draftState => updater draftState) with updater. rewrite E.
  destruct (strict_equal newState (state this app)) eqn:Hse; simpl.
  - apply strict_equal_spec in Hse as [Heq _]. by split.
  - unfold state, slice, plain_object_get. simpl. rewrite Hred. split.
    + by rewrite lookup_insert_eq.
    + intros other Ho. by rewrite lookup_insert_ne.
Qed.

(** X21. With such a reducer: right after [register(module)], whether it
    returned or raised, [this.state] of the module is the value that was
    read under its name before if that was truthy, and [initialState]
    otherwise. The read goes through the State Tree object to
    [Object.prototype]: a value that the tree holds itself under the name
    is what was read, and when it holds none, a name that every plain
    object inherits reads as the inherited member, which is truthy, and any
    other name as [undefined]. The slice of every other module name is what
    it was. *)
Theorem state_after_register (module : AppModule) (app : App) :
  reducer_replaces_slice ->
  let app' := (register module app).2 in
  state module app' =
    (if truthy (state module app) then state module app else initialState module)
  /\ (forall v, store_state app !! name module = Some v ->
        state module app' = if truthy v then v else initialState module)
  /\ (store_state app !! name module = None ->
        state module app' =
          if bool_decide (name module ∈ Object_prototype_names)
          then VBuiltin ("Object.prototype." +:+ name module)
          else initialState module)
  /\ forall other, other <> name module -> slice other app' = slice other app.
Proof.
  intros Hred. simpl. unfold state, slice.
  destruct (register_store module app) as [-> _]. unfold seeded, slice.
  assert (forall v, plain_object_get (<[name module := v]> (store_state app)) (name module)
                    = v) as Hown.
  { intros v. unfold plain_object_get. by rewrite lookup_insert_eq. }
  split; [|split; [|split]].
  - destruct (truthy (plain_object_get (store_state app) (name module))); simpl; [done|].
    by rewrite Hred.
  - intros v Hv.
    assert (plain_object_get (store_state app) (name module) = v) as Hread
      by (unfold plain_object_get; by rewrite Hv).
    rewrite Hread. destruct (truthy v); simpl; [done|]. by rewrite Hred.
  - intros Hv.
    assert (plain_object_get (store_state app) (name module) =
              if bool_decide (name module ∈ Object_prototype_names)
              then VBuiltin ("Object.prototype." +:+ name module) else VUndefined)
      as Hread by (unfold plain_object_get; by rewrite Hv).
    rewrite Hread. case_bool_decide; simpl; [done|]. by rewrite Hred.
  - intros other Ho.
    destruct (truthy (plain_object_get (store_state app) (name module))); simpl; [done|].
    unfold plain_object_get. rewrite Hred. by rewrite lookup_insert_ne.
Qed.

End StateReadBack.

Section StateReadBackExamples.
#[local] Existing Instance Sample.platform.

(** [this.setState(draft => 6)] on the counter at [5], then [this.state]. *)
Lemma state_after_setState_witness :
  state Sample.counter
    (setState Sample.counter (UpdaterFn (fun _ => VNum 6)) Sample.app_counter5).2 = VNum 6.
Proof.
  refine (proj1 (state_after_setState Sample.counter (fun _ => VNum 6) Sample.app_counter5
                   (VNum 6) (Some []) _ _)).
  - intros tree module state type. reflexivity.
  - reflexivity.
Defined.

(** [user1] is seeded on the empty State Tree; the module named
    ["toString"] is not, and reads the inherited function as its state. *)
Lemma state_after_register_witness :
  state Sample.user1 (register Sample.user1 Sample.app0).2 = VObj 10 /\
  state MoreSamples.printer (register MoreSamples.printer Sample.app0).2 =
    VBuiltin "Object.prototype.toString".
Proof.
  split.
  - refine (proj1 (state_after_register Sample.user1 Sample.app0 _)).
    intros tree module state type. reflexivity.
  - refine (proj1 (proj2 (proj2 (state_after_register MoreSamples.printer Sample.app0 _)))
              _).
    + intros tree module state type. reflexivity.
    + reflexivity.
Defined.

End StateReadBackExamples.
